(** * FrequencySpec: the spectrogram front end (frontend/src/App.jsx)

    A shallow embedding of the pure helpers and of the state transitions of
    the [App] component, and the properties of the specification proved
    about them.

    Numbers.  JavaScript numbers are IEEE doubles.  Every finite double is a
    rational, and the analyser, the replay clock, the recording buffer and
    the spectrum hover use only [+ - * /], comparisons, [Math.floor],
    [Math.ceil], [Math.round], [Math.min] and [Math.max]; they are embedded
    over [Q], in exact arithmetic, and stay executable.  The frequency mapper
    also uses [Math.log10] and [Math.pow] and is embedded over [R], and so
    are the waterfall renderer and the frequency scale, which call it.
    Rounding of intermediate results is not modelled.  Where a statement
    depends on a [Math.floor] that lands on an integer, it is stated for an
    integer sample rate and a transform size [2 ^ k] (the sizes an
    [AnalyserNode] accepts are powers of two) with products below [2 ^ 53]:
    there the doubles of the code hold the exact values. *)

From Stdlib Require Import ZArith QArith Qround Qminmax List Bool Lia.
From Stdlib Require Import Sorted Reals.
From Stdlib Require Import Lra Lqa.
From Stdlib Require String DecimalString.
Import ListNotations.
Import String.StringSyntax.

(** ** JavaScript idioms shared by the components *)

Module Js.

(** [for (let i = lo; i < hi; i += 1) body]: the loop state is threaded
    through the iterations in ascending order of [i]. *)
Definition for_range {S : Type} (lo hi : nat) (body : nat -> S -> S) (s : S) : S :=
  fold_left (fun acc i => body i acc) (seq lo (hi - lo)) s.

(** [a[i]] on an array; [None] is [undefined] (index out of range). *)
Definition get {A : Type} (a : list A) (i : Z) : option A :=
  if (i <? 0)%Z then None else nth_error a (Z.to_nat i).

(** [x < y] where [x] may be [undefined]: a comparison with [undefined] is
    false. *)
Definition lt (x : option Z) (y : Z) : bool :=
  match x with Some v => (v <? y)%Z | None => false end.

(** [x > y] on numbers. *)
Definition Qgt_bool (x y : Q) : bool := negb (Qle_bool x y).

(** [Math.round]: the nearest integer, ties towards plus infinity. *)
Definition round (x : Q) : Z := Qfloor (x + (1 # 2)).

(** The elements of a [Uint8Array]. *)
Definition uint8 (v : Z) : Prop := (0 <= v <= 255)%Z.

(** [Uint8Array.from(a)] on an array of integers: each element modulo 256. *)
Definition Uint8Array_from (a : list Z) : list Z :=
  map (fun v => (v mod 256)%Z) a.

End Js.

(** ** SpectralAnalyzer: [calculateFrequencyAnalysis] *)

Module SpectralAnalyzer.

Record Harmonic : Type := mkHarmonic
  { order : Z; frequency : Q; amplitude : Z }.

Record Analysis : Type := mkAnalysis
  { topResonating : Q; fundamental : option Q; harmonics : list Harmonic }.

(** Body of the first loop: [(maxValue, peakBin)]. *)
Definition peak_step (freqDataArray : list Z) (i : nat) (s : Z * nat) : Z * nat :=
  let '(maxValue, peakBin) := s in
  match Js.get freqDataArray (Z.of_nat i) with
  | Some v => if (v >? maxValue)%Z then (v, i) else s
  | None => s
  end.

(** [isPeak] for bin [i] holding [value]. *)
Definition isPeak (freqDataArray : list Z) (i : nat) (value : Z) : bool :=
  ((i =? 0)%nat || Js.lt (Js.get freqDataArray (Z.of_nat i - 1)) value)
  && ((Z.of_nat i =? Z.of_nat (length freqDataArray) - 1)%Z
      || Js.lt (Js.get freqDataArray (Z.of_nat i + 1)) value).

(** Body of the second loop: [(fundamentalBin, fundamentalValue)]. *)
Definition fundamental_step (freqDataArray : list Z) (i : nat) (s : nat * Z) : nat * Z :=
  let '(fundamentalBin, fundamentalValue) := s in
  match Js.get freqDataArray (Z.of_nat i) with
  | Some value =>
      if ((value >? fundamentalValue)%Z && (value >? 50)%Z)
      then if isPeak freqDataArray i value then (i, value) else s
      else s
  | None => s
  end.

(** [Math.floor((2000 * fftSize) / sampleRate)]. *)
Definition lowFreqLimit (sampleRate fftSize : Q) : Z :=
  Qfloor ((2000 * fftSize) / sampleRate).

(** [Math.floor((harmonicFreq * fftSize) / sampleRate)], the floor of the
    exact quotient. *)
Definition harmonicBin (harmonicFreq sampleRate fftSize : Q) : Z :=
  Qfloor ((harmonicFreq * fftSize) / sampleRate).

(** Body of the third loop; [harmonics.push] appends. *)
Definition harmonic_step (freqDataArray : list Z) (fundamentalFreq sampleRate fftSize : Q)
    (n : nat) (harmonics : list Harmonic) : list Harmonic :=
  let harmonicFreq := fundamentalFreq * inject_Z (Z.of_nat n) in
  let hb := harmonicBin harmonicFreq sampleRate fftSize in
  if (hb <? Z.of_nat (length freqDataArray))%Z then
    match Js.get freqDataArray hb with
    | Some harmonicValue =>
        if (harmonicValue >? 30)%Z
        then harmonics ++ [mkHarmonic (Z.of_nat n) harmonicFreq harmonicValue]
        else harmonics
    | None => harmonics
    end
  else harmonics.

Definition scanPeak (freqDataArray : list Z) : Z * nat :=
  Js.for_range 0 (length freqDataArray) (peak_step freqDataArray) (0%Z, 0%nat).

Definition scanFundamental (freqDataArray : list Z) (sampleRate fftSize : Q) : nat * Z :=
  Js.for_range 1
    (Z.to_nat (Z.min (lowFreqLimit sampleRate fftSize) (Z.of_nat (length freqDataArray))))
    (fundamental_step freqDataArray) (0%nat, 0%Z).

(** Frequency of a bin: [(bin * sampleRate) / fftSize]. *)
Definition binFreq (bin : nat) (sampleRate fftSize : Q) : Q :=
  (inject_Z (Z.of_nat bin) * sampleRate) / fftSize.

(** [calculateFrequencyAnalysis]; [None] is the [null] returned for an empty
    array.  Both call sites pass a typed array. *)
Definition calculateFrequencyAnalysis (freqDataArray : list Z) (sampleRate fftSize : Q)
    : option Analysis :=
  if (length freqDataArray =? 0)%nat then None
  else
    let peakBin := snd (scanPeak freqDataArray) in
    let peakFreq := binFreq peakBin sampleRate fftSize in
    let fundamentalBin := fst (scanFundamental freqDataArray sampleRate fftSize) in
    let fundamentalFreq := binFreq fundamentalBin sampleRate fftSize in
    let harmonics :=
      if Js.Qgt_bool fundamentalFreq 10
      then Js.for_range 2 5
             (harmonic_step freqDataArray fundamentalFreq sampleRate fftSize) []
      else [] in
    Some (mkAnalysis peakFreq
            (if Js.Qgt_bool fundamentalFreq 10 then Some fundamentalFreq else None)
            harmonics).

End SpectralAnalyzer.

(** ** FrequencyMapper: [binToY], [yToFreq], [freqToBin] *)

Module FrequencyMapper.

Local Open Scope R_scope.

(** [Math.log10] and [Math.pow(10, x)]. *)
Definition log10 (x : R) : R := ln x / ln 10.
Definition pow10 (x : R) : R := Rpower 10 x.

(** [Math.floor]. *)
Definition floor (x : R) : Z := Zfloor x.

(** The value [-1] that [binToY] returns for a bin it does not draw. *)
Definition OUT_OF_BAND : Z := (-1)%Z.

Definition minFreq : R := 5.
Definition maxFreq : R := 20000.

(** [binToY]; [logarithmic] is the scale mode ([true] for the logarithmic
    scale).  [bufferLength] is a parameter the body never reads. *)
Definition binToY (binIndex bufferLength height : Z) (logarithmic : bool)
    (sampleRate fftSize : R) : Z :=
  let binFreq := (IZR binIndex * sampleRate) / fftSize in
  if Rlt_dec binFreq minFreq then (-1)%Z
  else if Rlt_dec maxFreq binFreq then (-1)%Z
  else if logarithmic then
    let logMin := log10 minFreq in
    let logMax := log10 maxFreq in
    let logFreq := log10 binFreq in
    let frac := 1 - (logFreq - logMin) / (logMax - logMin) in
    floor (frac * (IZR height - 1))
  else
    let frac := 1 - (binFreq - minFreq) / (maxFreq - minFreq) in
    floor (frac * (IZR height - 1)).

(** [yToFreq]. *)
Definition yToFreq (y : R) (height : Z) (logarithmic : bool) : R :=
  if logarithmic then
    let logMin := log10 minFreq in
    let logMax := log10 maxFreq in
    let frac := 1 - (y + /2) / (IZR height - 1) in
    let logFreq := logMin + frac * (logMax - logMin) in
    pow10 logFreq
  else
    let frac := 1 - (y + /2) / (IZR height - 1) in
    minFreq + frac * (maxFreq - minFreq).

(** Frequency of a bin, the relation every component shares. *)
Definition binFreq (binIndex : Z) (sampleRate fftSize : R) : R :=
  (IZR binIndex * sampleRate) / fftSize.

(** The frequency at the vertical position [pos] of the canvas, where pixel
    row [y] covers the positions from [y] to [y + 1]: [yToFreq] adds the
    half pixel that leads to the centre of a row. *)
Definition freqAt (pos : R) (height : Z) (logarithmic : bool) : R :=
  yToFreq (pos - /2) height logarithmic.

(** The frequencies at the upper and lower edge of pixel row [y], and the
    frequency span of the row. *)
Definition rowTopFreq (y : Z) (height : Z) (logarithmic : bool) : R :=
  freqAt (IZR y) height logarithmic.

Definition rowBottomFreq (y : Z) (height : Z) (logarithmic : bool) : R :=
  freqAt (IZR y + 1) height logarithmic.

Definition rowSpan (y : Z) (height : Z) (logarithmic : bool) : R :=
  rowTopFreq y height logarithmic - rowBottomFreq y height logarithmic.

(** The contract of [binToY] in the words of the specification. *)
Definition spec_frac (logarithmic : bool) (binFreq : R) : R :=
  if logarithmic
  then 1 - (log10 binFreq - log10 5) / (log10 20000 - log10 5)
  else 1 - (binFreq - 5) / (20000 - 5).

End FrequencyMapper.

(** [freqToBin], on the rationals: the floor of the exact quotient. *)
Definition freqToBin (freq sampleRate fftSize : Q) : Z :=
  Qfloor ((freq * fftSize) / sampleRate).

(** ** Frames and recordings *)

(** One captured frame: [{ t, freq, timeDomain }]. *)
Record Frame : Type := mkFrame
  { t : Q; freq : list Z; timeDomain : list Z }.

(** [new Date()] as the code uses it. *)
Record Date : Type := mkDate
  { getTime : Z; toLocaleTimeString : String.string }.

(** A recording as [handleToggleRecording] builds it.  The template strings
    [`${createdAt.getTime()}-${index}`] and [`Recording ${index}`] are kept
    as the values they are built from. *)
Record Recording : Type := mkRecording
  { id : Z * nat;
    label : nat;
    createdAt : String.string;
    durationMs : Q;
    nyquistHz : Q;
    sampleRate : Q;
    fftSize : Q;
    bufferLength : Z;
    frames : list Frame }.

(** A value produced by [JSON.parse]; an object is the list of its
    properties. *)
#[local] Unset Elimination Schemes.
Inductive json : Type :=
  | JNull
  | JBool (b : bool)
  | JNum (q : Q)
  | JStr (s : String.string)
  | JArr (elements : list json)
  | JObj (properties : list (String.string * json)).
#[local] Set Elimination Schemes.

(** The label of an imported recording: [rec.label] when it is truthy,
    [`Imported recording ${idx + 1}`] otherwise. *)
Inductive ImportedLabel : Type :=
  | LabelGiven (v : json)
  | LabelImported (n : nat).

(** A recording as [handleImportFile] builds it.  Its frames are the
    elements of [rec.frames] as parsed: the import does not look inside
    them.  The identifier [`${Date.now()}-${idx}-${suffix}`] is kept as its
    three parts. *)
Record ImportedRecording : Type := mkImported
  { i_id : Z * nat * String.string;
    i_label : ImportedLabel;
    i_createdAt : json;
    i_durationMs : json;
    i_nyquistHz : Q;
    i_sampleRate : Q;
    i_fftSize : Q;
    i_bufferLength : Q;
    i_frames : list json }.

(** An element of the [recordings] collection. *)
Inductive Stored : Type :=
  | Captured (r : Recording)
  | Imported (r : ImportedRecording).

(** ** ReplayEngine: [drawReplay] *)

Module ReplayEngine.

(** The selection loop, with its [break]; [frame] is the value the variable
    holds when the loop starts. *)
Fixpoint selectLoop (frames : list Frame) (elapsed : Q) (frame : Frame) : Frame :=
  match frames with
  | [] => frame
  | f :: rest => if Qle_bool elapsed (t f) then f else selectLoop rest elapsed frame
  end.

(** [frames[frames.length - 1]]; [None] on the empty array, for which the
    effect returns before [drawReplay] exists. *)
Definition lastFrame (frames : list Frame) : option Frame :=
  Js.get frames (Z.of_nat (length frames) - 1).

Definition selectFrame (frames : list Frame) (elapsed : Q) : option Frame :=
  match lastFrame frames with
  | Some f => Some (selectLoop frames elapsed f)
  | None => None
  end.

(** The test that ends [drawReplay]: [true] schedules another tick, [false]
    is [setIsReplaying(false)]. *)
Definition continues (frames : list Frame) (isReplaying : bool) (elapsed : Q) : bool :=
  match lastFrame frames with
  | Some f => Qle_bool elapsed (t f) && isReplaying
  | None => false
  end.

(** What one tick feeds to the analyser. *)
Definition analyse (frame : Frame) (sampleRate fftSize : Q)
    : option SpectralAnalyzer.Analysis :=
  SpectralAnalyzer.calculateFrequencyAnalysis
    (Js.Uint8Array_from (freq frame)) sampleRate fftSize.

(** One tick of [drawReplay] at playback time [elapsed]: the frame drawn and
    the new value of [isReplaying]. *)
Definition drawReplay (frames : list Frame) (isReplaying : bool) (elapsed : Q)
    : option (Frame * bool) :=
  match selectFrame frames elapsed with
  | Some f => Some (f, continues frames isReplaying elapsed)
  | None => None
  end.

(** A chronological frame list: times in non-decreasing order. *)
Definition chronological (frames : list Frame) : Prop :=
  StronglySorted (fun f g => t f <= t g) frames.

End ReplayEngine.

(** ** RecordingBuffer: [handleToggleRecording] and the capture step of [draw] *)

Module RecordingBuffer.

Record State : Type := mkState
  { isRecording : bool;
    isRecordingRef : bool;
    isReplaying : bool;
    recordings : list Stored;
    recordedFramesRef : list Frame;
    recordingStartRef : option Q;
    nyquistRef : Q;
    sampleRateRef : Q;
    fftSizeRef : Q;
    bufferLengthRef : Z }.

(** The block "Save frame if recording" of [draw], at [performance.now()]
    equal to [now]. *)
Definition saveFrame (now : Q) (freqDataArray timeDomainArray : list Z) (s : State) : State :=
  if isRecordingRef s then
    let start := match recordingStartRef s with Some t0 => t0 | None => now end in
    let kept := match recordingStartRef s with Some _ => recordedFramesRef s | None => [] end in
    mkState (isRecording s) (isRecordingRef s) (isReplaying s) (recordings s)
      (kept ++ [mkFrame (now - start) freqDataArray timeDomainArray])
      (Some start)
      (nyquistRef s) (sampleRateRef s) (fftSizeRef s) (bufferLengthRef s)
  else s.

(** The recording saved from [frames], whose last element is [last]; [prev]
    is the collection it is added to. *)
Definition newRecording (createdAt : Date) (s : State) (prev : list Stored)
    (frames : list Frame) (last : Frame) : Recording :=
  let index := (length prev + 1)%nat in
  mkRecording (getTime createdAt, index) index (toLocaleTimeString createdAt)
    (t last) (nyquistRef s) (sampleRateRef s) (fftSizeRef s) (bufferLengthRef s)
    frames.

(** [handleToggleRecording]; [createdAt] is the [new Date()] read when a
    recording is saved. *)
Definition handleToggleRecording (createdAt : Date) (s : State) : State :=
  if isReplaying s then s
  else if negb (isRecordingRef s) then
    mkState true true (isReplaying s) (recordings s) [] None
      (nyquistRef s) (sampleRateRef s) (fftSizeRef s) (bufferLengthRef s)
  else
    let frames := recordedFramesRef s in
    let recordings' :=
      match ReplayEngine.lastFrame frames with
      | Some last =>
          Captured (newRecording createdAt s (recordings s) frames last) :: recordings s
      | None => recordings s
      end in
    mkState false false (isReplaying s) recordings' (recordedFramesRef s)
      (recordingStartRef s)
      (nyquistRef s) (sampleRateRef s) (fftSizeRef s) (bufferLengthRef s).

(** What one tick of [draw] reads: the clock and the two analyser arrays. *)
Record Sample : Type := mkSample
  { now : Q; freqData : list Z; timeData : list Z }.

Definition tick (s : State) (x : Sample) : State :=
  saveFrame (now x) (freqData x) (timeData x) s.

(** The ticks of [draw] over the successive samples. *)
Definition ticks (samples : list Sample) (s : State) : State :=
  fold_left tick samples s.

(** The frame saved for a sample, with the time origin [t0]. *)
Definition frameOf (t0 : Q) (x : Sample) : Frame :=
  mkFrame (now x - t0) (freqData x) (timeData x).

(** A capture session on the state [s]: start, the ticks, stop. *)
Definition session (started stopped : Date) (samples : list Sample) (s : State) : State :=
  handleToggleRecording stopped (ticks samples (handleToggleRecording started s)).

(** [performance.now()] never goes back. *)
Definition monotonic (samples : list Sample) : Prop :=
  StronglySorted (fun x y => now x <= now y) samples.

End RecordingBuffer.

(** ** Import: the [onload] handler of [handleImportFile] *)

Module Importer.

Import String.
Local Open Scope string_scope.

(** What the handler reads from its environment: the refs holding the live
    parameters, and, for the entry at index [idx], [Date.now()], the suffix
    drawn from [Math.random()] and [new Date().toLocaleTimeString()]. *)
Record Env : Type := mkEnv
  { nyquistRef : Q;
    sampleRateRef : Q;
    fftSizeRef : Q;
    bufferLengthRef : Q;
    dateNow : nat -> Z;
    randomSuffix : nat -> String.string;
    localeTime : nat -> String.string }.

Fixpoint assoc (k : String.string) (ps : list (String.string * json)) : option json :=
  match ps with
  | [] => None
  | (k', v) :: rest => if String.eqb k k' then Some v else assoc k rest
  end.

(** [rec.k] for one of the property names the handler reads, on a value
    other than [null]; [None] is [undefined].  Numbers, booleans, strings
    and arrays have none of these properties. *)
Definition prop (rec : json) (k : String.string) : option json :=
  match rec with
  | JObj ps => assoc k ps
  | _ => None
  end.

(** Truthiness of a property value, for [x || y]. *)
Definition truthy (v : option json) : bool :=
  match v with
  | None | Some JNull | Some (JBool false) => false
  | Some (JNum q) => negb (Qeq_bool q 0)
  | Some (JStr s) => negb (String.eqb s EmptyString)
  | Some _ => true
  end.

(** [typeof x === 'number' && x > 0 ? x : d]. *)
Definition positiveOr (v : option json) (d : Q) : Q :=
  match v with
  | Some (JNum q) => if Js.Qgt_bool q 0 then q else d
  | _ => d
  end.

(** [Array.isArray(rec.frames) ? rec.frames : []]. *)
Definition framesOf (v : option json) : list json :=
  match v with
  | Some (JArr elements) => elements
  | _ => []
  end.

Definition isArray (v : option json) : bool :=
  match v with
  | Some (JArr _) => true
  | _ => false
  end.

Section Handler.

(** [o[o.length - 1]] on a plain object [o], an expression reached only
    when [rec.frames] is an object; its value depends on how [o.length] is
    converted to a property name, which is left open. *)
Variable lastOfObject : list (String.string * json) -> option json.

(** [rec.frames?.[rec.frames.length - 1]]. *)
Definition lastOfFrames (v : option json) : option json :=
  match v with
  | None | Some JNull => None
  | Some (JArr elements) => Js.get elements (Z.of_nat (List.length elements) - 1)
  | Some (JStr s) =>
      if (String.length s =? 0)%nat then None
      else Some (JStr (String.substring (String.length s - 1) 1 s))
  | Some (JObj ps) => lastOfObject ps
  | Some _ => None
  end.

(** [x?.t ?? 0]. *)
Definition tOrZero (v : option json) : json :=
  match v with
  | Some (JObj ps) =>
      match assoc "t" ps with
      | Some JNull | None => JNum 0
      | Some w => w
      end
  | _ => JNum 0
  end.

(** The callback of [parsed.map].  [None] is the [TypeError] raised by
    reading a property of [null]. *)
Definition importEntry (env : Env) (idx : nat) (rec : json) : option ImportedRecording :=
  match rec with
  | JNull => None
  | _ =>
      let createdAt :=
        match prop rec "createdAt" with
        | Some v => if truthy (Some v) then v else JStr (localeTime env idx)
        | None => JStr (localeTime env idx)
        end in
      let durationMs :=
        match prop rec "durationMs" with
        | Some (JNum q) =>
            if Js.Qgt_bool q 0 then JNum q
            else tOrZero (lastOfFrames (prop rec "frames"))
        | _ => tOrZero (lastOfFrames (prop rec "frames"))
        end in
      Some (mkImported
              (dateNow env idx, idx, randomSuffix env idx)
              (match prop rec "label" with
               | Some v => if truthy (Some v) then LabelGiven v else LabelImported (idx + 1)
               | None => LabelImported (idx + 1)
               end)
              createdAt
              durationMs
              (positiveOr (prop rec "nyquistHz") (nyquistRef env))
              (positiveOr (prop rec "sampleRate") (sampleRateRef env))
              (positiveOr (prop rec "fftSize") (fftSizeRef env))
              (positiveOr (prop rec "bufferLength") (bufferLengthRef env))
              (framesOf (prop rec "frames")))
  end.

(** [parsed.map((rec, idx) => ...)] from index [idx] on; the first
    [TypeError] abandons the whole map. *)
Fixpoint mapEntries (env : Env) (idx : nat) (entries : list json)
    : option (list ImportedRecording) :=
  match entries with
  | [] => Some []
  | rec :: rest =>
      match importEntry env idx rec with
      | None => None
      | Some r =>
          match mapEntries env (S idx) rest with
          | None => None
          | Some rs => Some (r :: rs)
          end
      end
  end.

(** The [try] block on the parsed file: the new value of [recordings].  A
    value that is not an array, or a [TypeError] caught by the [catch],
    leaves the collection as it was. *)
Definition handleImportFile (env : Env) (parsed : json) (prev : list Stored) : list Stored :=
  match parsed with
  | JArr entries =>
      match mapEntries env 0 entries with
      | Some imported => map Imported imported ++ prev
      | None => prev
      end
  | _ => prev
  end.

End Handler.

(** The two entries of the example of the specification: a recording as
    [handleExportRecordings] writes it, and an object whose [frames] is not
    an array. *)
Definition wellFormedEntry : json :=
  JObj [("id", JStr "1700000000000-1");
        ("label", JStr "Recording 1");
        ("createdAt", JStr "10:00:00");
        ("durationMs", JNum 33);
        ("nyquistHz", JNum 20000);
        ("sampleRate", JNum 44100);
        ("fftSize", JNum 2048);
        ("bufferLength", JNum 1024);
        ("frames",
         JArr [JObj [("t", JNum 0); ("freq", JArr [JNum 0; JNum 7]);
                     ("timeDomain", JArr [JNum 128; JNum 128])];
               JObj [("t", JNum 33); ("freq", JArr [JNum 3; JNum 9]);
                     ("timeDomain", JArr [JNum 127; JNum 129])]])].

Definition brokenEntry : json :=
  JObj [("label", JStr "broken"); ("frames", JStr "not an array")].

(** An entry with a negative sample rate and a zero transform size. *)
Definition badParametersEntry : json :=
  JObj [("sampleRate", JNum (-3)); ("fftSize", JNum 0)].

Definition liveEnv : Env :=
  mkEnv 20000 44100 2048 1024
    (fun _ => 1700000000000%Z) (fun _ => "k3x9qa") (fun _ => "10:05:00").

End Importer.

(** ** Hover read-outs: [handleSpectrumHover] and [handleSpectrogramHover] *)

Module Hover.

(** The effect of a handler on [hoverFreqHz]: left alone, or set (to [null]
    when [None]). *)
Inductive Update (A : Type) : Type :=
  | Unchanged
  | SetHoverFreqHz (v : option A).

Arguments Unchanged {A}.
Arguments SetHoverFreqHz {A} v.

(** [x || d] on numbers. *)
Definition orZ (x d : Z) : Z := if (x =? 0)%Z then d else x.
Definition orQ (x d : Q) : Q := if Qeq_bool x 0 then d else x.

(** [handleSpectrumHover]; [canvasWidth] is [None] when the canvas ref is
    empty. *)
Definition handleSpectrumHover (canvasWidth : option Z) (offsetX : Q)
    (bufferLengthRef : Z) (sampleRateRef fftSizeRef : Q) : Update Q :=
  match canvasWidth with
  | None => Unchanged
  | Some canvas_width =>
      let width := orZ canvas_width 1 in
      let clampedX := Qmin (Qmax offsetX 0) (inject_Z width - 1) in
      let bufferLength := orZ bufferLengthRef 1024 in
      let sampleRate := orQ sampleRateRef 44100 in
      let fftSize := orQ fftSizeRef 2048 in
      let step := Qceiling (inject_Z bufferLength / inject_Z width) in
      let pixelIndex := Js.round clampedX in
      let binIndex := Z.min (bufferLength - 1) (pixelIndex * step) in
      let freq := ((inject_Z binIndex + (1 # 2)) * sampleRate) / fftSize in
      SetHoverFreqHz (Some (Qmax 0 (Qmin 20000 freq)))
  end.

(** [handleSpectrogramHover]; [canvasHeight] is [None] when the canvas ref
    is empty. *)
Definition handleSpectrogramHover (canvasHeight : option Z) (offsetY : R)
    (useLogScale : bool) : Update R :=
  match canvasHeight with
  | None => Unchanged
  | Some canvas_height =>
      let height := orZ canvas_height 1 in
      let clampedY := Rmin (Rmax offsetY 0%R) (IZR height - 1)%R in
      if Rle_dec (IZR height - 1)%R 0%R then SetHoverFreqHz None
      else
        let freq := FrequencyMapper.yToFreq clampedY height useLogScale in
        SetHoverFreqHz (Some (Rmax 5%R (Rmin 20000%R freq)))
  end.

(** The spectrum read-out in the words of the specification. *)
Definition clampQ (lo hi x : Q) : Q := Qmax lo (Qmin hi x).

Definition spec_bin (x : Q) (W L : Z) : Z :=
  Z.min (L - 1)
    (Js.round (Qmin (Qmax x 0) (inject_Z W - 1)) * Qceiling (inject_Z L / inject_Z W)).

Definition spec_spectrumHover (x : Q) (W L : Z) (SR N : Q) : Q :=
  clampQ 0 20000 (((inject_Z (spec_bin x W L) + (1 # 2)) * SR) / N).

End Hover.

(** ** WaterfallRenderer: the scroll and the new column of [draw] and
    [drawReplay] *)

Module Waterfall.

Local Open Scope R_scope.

Record Color : Type := mkColor { red : Z; green : Z; blue : Z }.

(** The colour of a magnitude: [intensity = value / 255], then
    [Math.floor(255 * Math.pow(intensity, 3))], [Math.floor(50 * intensity)]
    and [Math.floor(255 * Math.sqrt(intensity))]. *)
Definition intensityColor (value : Z) : Color :=
  let intensity := IZR value / 255 in
  mkColor (FrequencyMapper.floor (255 * intensity ^ 3))
          (FrequencyMapper.floor (50 * intensity))
          (FrequencyMapper.floor (255 * sqrt intensity)).

(** The pixels of the spectrogram canvas, by column [x] and row [y]. *)
Definition Canvas : Type := Z -> Z -> Color.

(** The canvas after the black [fillRect] that precedes the first tick. *)
Definition cleared : Canvas := fun _ _ => mkColor 0 0 0.

(** [fillRect(x, y, 1, 1)] in the colour [color] on a canvas of the given
    size: one pixel, nothing outside the canvas. *)
Definition fillPixel (c : Canvas) (width height x y : Z) (color : Color) : Canvas :=
  fun x' y' =>
    if ((x' =? x) && (y' =? y) && (0 <=? x) && (x <? width)
        && (0 <=? y) && (y <? height))%Z
    then color else c x' y'.

(** [putImageData(getImageData(1, 0, width - 1, height), 0, 0)]: every
    column but the last takes the pixels of its right neighbour.  (On a
    canvas one pixel wide the rectangle is empty and [getImageData] throws;
    the properties below take a width of at least 2.) *)
Definition scroll (c : Canvas) (width height : Z) : Canvas :=
  fun x y =>
    if ((0 <=? x) && (x <? width - 1) && (0 <=? y) && (y <? height))%Z
    then c (x + 1)%Z y else c x y.

(** Body of the painting loop for bin [i]. *)
Definition paintStep (freqDataArray : list Z) (specWidth specHeight : Z)
    (useLogScale : bool) (sampleRate fftSize : R) (i : nat) (c : Canvas) : Canvas :=
  match Js.get freqDataArray (Z.of_nat i) with
  | Some value =>
      let y := FrequencyMapper.binToY (Z.of_nat i) (Z.of_nat (length freqDataArray))
                 specHeight useLogScale sampleRate fftSize in
      if (y <? 0)%Z then c
      else fillPixel c specWidth specHeight (specWidth - 1) y (intensityColor value)
  | None => c
  end.

(** The painting loop; [bufferLength] is the length of the array at both
    call sites. *)
Definition paintColumn (c : Canvas) (freqDataArray : list Z) (specWidth specHeight : Z)
    (useLogScale : bool) (sampleRate fftSize : R) : Canvas :=
  Js.for_range 0 (length freqDataArray)
    (paintStep freqDataArray specWidth specHeight useLogScale sampleRate fftSize) c.

(** The spectrogram part of one tick. *)
Definition tick (specWidth specHeight : Z) (useLogScale : bool) (sampleRate fftSize : R)
    (c : Canvas) (freqDataArray : list Z) : Canvas :=
  paintColumn (scroll c specWidth specHeight) freqDataArray specWidth specHeight
    useLogScale sampleRate fftSize.

(** Successive ticks. *)
Definition ticks (specWidth specHeight : Z) (useLogScale : bool) (sampleRate fftSize : R)
    (c : Canvas) (spectra : list (list Z)) : Canvas :=
  fold_left (tick specWidth specHeight useLogScale sampleRate fftSize) spectra c.

(** Bin [i] is the last bin of the array painted on row [y]. *)
Definition lastBinOnRow (freqDataArray : list Z) (specHeight : Z)
    (useLogScale : bool) (sampleRate fftSize : R) (k : nat) (y : Z) (i : nat) : Prop :=
  (i < k)%nat /\
  FrequencyMapper.binToY (Z.of_nat i) (Z.of_nat (length freqDataArray))
    specHeight useLogScale sampleRate fftSize = y /\
  forall j, (i < j < k)%nat ->
    FrequencyMapper.binToY (Z.of_nat j) (Z.of_nat (length freqDataArray))
      specHeight useLogScale sampleRate fftSize <> y.

(** The canvas before iteration [k] of the painting loop, started on [c]:
    the other columns are untouched, a row no bin has reached keeps its
    pixel, and a row some bin has reached shows the colour of the last such
    bin. *)
Definition columnInvariant (freqDataArray : list Z) (specWidth specHeight : Z)
    (useLogScale : bool) (sampleRate fftSize : R)
    (c : Canvas) (k : nat) (ck : Canvas) : Prop :=
  (forall x y, x <> (specWidth - 1)%Z -> ck x y = c x y) /\
  (forall y,
     (forall i, (i < k)%nat ->
        FrequencyMapper.binToY (Z.of_nat i) (Z.of_nat (length freqDataArray))
          specHeight useLogScale sampleRate fftSize <> y) ->
     ck (specWidth - 1)%Z y = c (specWidth - 1)%Z y) /\
  (forall y i v,
     lastBinOnRow freqDataArray specHeight useLogScale sampleRate fftSize k y i ->
     nth_error freqDataArray i = Some v ->
     (0 <= y)%Z -> ck (specWidth - 1)%Z y = intensityColor v).

End Waterfall.

(** ** AuxiliaryPlotRenderer: the waveform and spectrum polylines *)

Module Plots.

(** Body of the waveform loop: the state is [x] and the points drawn so far
    ([moveTo] for the first one, [lineTo] for the others). *)
Definition waveformStep (timeDomainArray : list Z) (h sliceWidth : Q) (i : nat)
    (s : Q * list (Q * Q)) : Q * list (Q * Q) :=
  let '(x, path) := s in
  match Js.get timeDomainArray (Z.of_nat i) with
  | Some sample =>
      let v := inject_Z sample / 128 in
      let y := (v / 2) * h in
      (x + sliceWidth, path ++ [(x, y)])
  | None => s
  end.

(** The polyline of the waveform on a canvas of size [w] by [h]. *)
Definition waveformPath (w h : Z) (timeDomainArray : list Z) : list (Q * Q) :=
  let sliceWidth := inject_Z w / inject_Z (Z.of_nat (length timeDomainArray)) in
  snd (Js.for_range 0 (length timeDomainArray)
         (waveformStep timeDomainArray (inject_Z h) sliceWidth) (0, [])).


(** [Math.ceil(bufferLength / w)]. *)
Definition step (bufferLength w : Z) : Z :=
  Qceiling (inject_Z bufferLength / inject_Z w).



End Plots.

(** ** The frequency scale beside the spectrogram *)

Module Legend.

Local Open Scope R_scope.

(** A label: [`${tenths / 10} kHz`] or [`${n} Hz`]. *)
Inductive Label : Type :=
  | KHz (tenths : Z)
  | Hz (n : Z).

(** [Math.round] on a real number. *)
Definition round (x : R) : Z := Zfloor (x + /2).

(** [freq >= 1000 ? `${Math.round(freq / 100) / 10} kHz`
                  : `${Math.round(freq)} Hz`]. *)
Definition labelOf (freq : R) : Label :=
  if Rle_dec 1000 freq then KHz (round (freq / 100)) else Hz (round freq).

(** The positions [1, 0.75, 0.5, 0.35, 0.2, 0]. *)
Definition positions : list R := [1; 3 / 4; 1 / 2; 7 / 20; 1 / 5; 0].

(** The frequency of the label at position [p], canvas ready. *)
Definition legendFreq (height : Z) (useLogScale : bool) (p : R) : R :=
  let y := p * (IZR height - 1) in
  let freq := FrequencyMapper.yToFreq y height useLogScale in
  Rmax 5 (Rmin 20000 freq).

(** The frequency of the label at position [p], canvas not ready. *)
Definition fallbackFreq (p : R) : R := 5 + (20000 - 5) * (1 - p).

(** The labels of the scale; [canvasHeight] is [None] when the canvas ref
    is empty. *)
Definition frequencyScale (canvasHeight : option Z) (useLogScale : bool) : list Label :=
  let height :=
    Hover.orZ (match canvasHeight with Some h => h | None => 0%Z end) 320 in
  if Rle_dec (IZR height - 1) 0
  then map (fun p => labelOf (fallbackFreq p)) positions
  else map (fun p => labelOf (legendFreq height useLogScale p)) positions.

End Legend.

(** ** Export: [handleExportRecordings] *)

Module Exporter.

Import String.
Local Open Scope string_scope.

(** [`${n}`] for an integer. *)
Definition showNat (n : nat) : string :=
  DecimalString.NilZero.string_of_uint (Nat.to_uint n).

Definition showZ (z : Z) : string :=
  DecimalString.NilZero.string_of_int (Z.to_int z).

(** The template strings of [handleToggleRecording]. *)
Definition idString (i : Z * nat) : string :=
  showZ (fst i) ++ "-" ++ showNat (snd i).

Definition labelString (n : nat) : string := "Recording " ++ showNat n.

(** The template strings of [handleImportFile]. *)
Definition importedIdString (i : Z * nat * string) : string :=
  showZ (fst (fst i)) ++ "-" ++ showNat (snd (fst i)) ++ "-" ++ snd i.

Definition importedLabelJson (l : ImportedLabel) : json :=
  match l with
  | LabelGiven v => v
  | LabelImported n => JStr ("Imported recording " ++ showNat n)
  end.

Definition numbers (a : list Z) : json := JArr (map (fun v => JNum (inject_Z v)) a).

(** What [JSON.parse] reads back from [JSON.stringify] of a frame and of a
    recording: the properties in the order of the object literals. *)
Definition frameJson (f : Frame) : json :=
  JObj [("t", JNum (t f));
        ("freq", numbers (freq f));
        ("timeDomain", numbers (timeDomain f))].

Definition recordingJson (r : Recording) : json :=
  JObj [("id", JStr (idString (id r)));
        ("label", JStr (labelString (label r)));
        ("createdAt", JStr (createdAt r));
        ("durationMs", JNum (durationMs r));
        ("nyquistHz", JNum (nyquistHz r));
        ("sampleRate", JNum (sampleRate r));
        ("fftSize", JNum (fftSize r));
        ("bufferLength", JNum (inject_Z (bufferLength r)));
        ("frames", JArr (map frameJson (frames r)))].

Definition importedJson (r : ImportedRecording) : json :=
  JObj [("id", JStr (importedIdString (i_id r)));
        ("label", importedLabelJson (i_label r));
        ("createdAt", i_createdAt r);
        ("durationMs", i_durationMs r);
        ("nyquistHz", JNum (i_nyquistHz r));
        ("sampleRate", JNum (i_sampleRate r));
        ("fftSize", JNum (i_fftSize r));
        ("bufferLength", JNum (i_bufferLength r));
        ("frames", JArr (i_frames r))].

Definition storedJson (x : Stored) : json :=
  match x with
  | Captured r => recordingJson r
  | Imported r => importedJson r
  end.

(** The content of the file [handleExportRecordings] offers: [None] when
    the collection is empty and nothing is exported. *)
Definition handleExportRecordings (recordings : list Stored) : option json :=
  match recordings with
  | [] => None
  | _ => Some (JArr (map storedJson recordings))
  end.

(** A recording as a capture session leaves it: positive parameters, a
    creation time, at least one frame, and the duration of its last frame. *)
Definition captured (r : Recording) : Prop :=
  0 < nyquistHz r /\ 0 < sampleRate r /\ 0 < fftSize r /\ (0 < bufferLength r)%Z /\
  createdAt r <> EmptyString /\
  exists last, ReplayEngine.lastFrame (frames r) = Some last /\ durationMs r = t last.

(** A recording of two frames, 33 ms long. *)
Definition sampleRecording : Recording :=
  mkRecording (1700000000000%Z, 1%nat) 1 "10:00:00" 33 20000 44100 2048 1024
    [mkFrame 0 [0; 7]%Z [128; 128]%Z; mkFrame 33 [3; 9]%Z [127; 129]%Z].

End Exporter.

(** * Loop invariants and auxiliary predicates *)

Module Invariants.

Import SpectralAnalyzer.

(** The state of the first loop before iteration [k]: nothing positive seen
    yet, or the first greatest element among the bins before [k]. *)
Definition peak_inv (a : list Z) (k : nat) (s : Z * nat) : Prop :=
  let '(maxValue, peakBin) := s in
  (maxValue = 0%Z /\ peakBin = 0%nat /\
   forall j v, (j < k)%nat -> nth_error a j = Some v -> (v <= 0)%Z)
  \/
  ((peakBin < k)%nat /\ nth_error a peakBin = Some maxValue /\ (0 < maxValue)%Z /\
   (forall j v, (j < k)%nat -> nth_error a j = Some v -> (v <= maxValue)%Z) /\
   (forall j v, (j < peakBin)%nat -> nth_error a j = Some v -> (v < maxValue)%Z)).

(** A local peak in the words of the specification: above 50 and above each
    neighbour that exists. *)
Definition spec_localPeak (a : list Z) (i : nat) : bool :=
  match nth_error a i with
  | None => false
  | Some v =>
      (50 <? v)%Z
      && match nth_error a (i - 1) with Some p => (p <? v)%Z | None => true end
      && match nth_error a (i + 1) with Some n => (n <? v)%Z | None => true end
  end.

(** The bins the second loop visits. *)
Definition scanned (a : list Z) (sampleRate fftSize : Q) (i : nat) : bool :=
  (1 <=? i)%nat
  && (Z.of_nat i <? Z.min (lowFreqLimit sampleRate fftSize) (Z.of_nat (length a)))%Z.

(** A qualifying peak: a scanned bin that is a local peak. *)
Definition candidate (a : list Z) (sampleRate fftSize : Q) (i : nat) : bool :=
  scanned a sampleRate fftSize i && spec_localPeak a i.

(** The bins the search is restricted to, from the formula of its limit:
    [1 <= i < floor(2000 * fftSize / sampleRate)], inside the array. *)
Definition spec_searched (a : list Z) (sampleRate fftSize : Q) (i : nat) : bool :=
  (1 <=? i)%nat && (i <? length a)%nat
  && (Z.of_nat i <? Qfloor ((2000 * fftSize) / sampleRate))%Z.

(** A qualifying peak in those words: a searched bin that is a local peak. *)
Definition spec_candidate (a : list Z) (sampleRate fftSize : Q) (i : nat) : bool :=
  spec_searched a sampleRate fftSize i && spec_localPeak a i.

(** A spectrum of [len] bins with the single magnitude [v] at bin [b]. *)
Definition lonePeak (len b : nat) (v : Z) : list Z :=
  map (fun i => if (i =? b)%nat then v else 0%Z) (seq 0 len).

(** The state of the second loop before iteration [k]: no local peak among
    the bins [1 .. k-1], or the first greatest of them. *)
Definition fundamental_inv (a : list Z) (k : nat) (s : nat * Z) : Prop :=
  let '(fundamentalBin, fundamentalValue) := s in
  (fundamentalBin = 0%nat /\ fundamentalValue = 0%Z /\
   forall j, (1 <= j < k)%nat -> spec_localPeak a j = false)
  \/
  ((1 <= fundamentalBin < k)%nat /\ spec_localPeak a fundamentalBin = true /\
   nth_error a fundamentalBin = Some fundamentalValue /\
   (forall j v, (1 <= j < k)%nat -> spec_localPeak a j = true ->
                nth_error a j = Some v -> (v <= fundamentalValue)%Z) /\
   (forall j v, (1 <= j < fundamentalBin)%nat -> spec_localPeak a j = true ->
                nth_error a j = Some v -> (v < fundamentalValue)%Z)).

(** The synthetic spectrum of the specification: 200 at bin [b], [v2], [v3]
    and [v4] at the bins [2b], [3b] and [4b], zero elsewhere. *)
Definition synthetic_bin (b : nat) (v2 v3 v4 : Z) (i : nat) : Z :=
  if (i =? b)%nat then 200%Z
  else if (i =? 2 * b)%nat then v2
  else if (i =? 3 * b)%nat then v3
  else if (i =? 4 * b)%nat then v4
  else 0%Z.

Definition synthetic (len b : nat) (v2 v3 v4 : Z) : list Z :=
  map (synthetic_bin b v2 v3 v4) (seq 0 len).


End Invariants.

(** * Properties *)

(** ** Loops and array reads *)

Lemma some_eq {A : Type} (x y : A) : Some x = Some y -> x = y.
Proof. now intros [= ->]. Qed.

Section Loops.

Context {S : Type}.

Lemma for_range_empty (lo hi : nat) (body : nat -> S -> S) (s : S) :
  (hi <= lo)%nat -> Js.for_range lo hi body s = s.
Proof.
  intros Hle. unfold Js.for_range.
  replace (hi - lo)%nat with 0%nat by lia. reflexivity.
Qed.

Lemma for_range_last (lo hi : nat) (body : nat -> S -> S) (s : S) :
  (lo <= hi)%nat ->
  Js.for_range lo (Datatypes.S hi) body s = body hi (Js.for_range lo hi body s).
Proof.
  intros Hle. unfold Js.for_range.
  replace (Datatypes.S hi - lo)%nat with (Datatypes.S (hi - lo)) by lia.
  rewrite seq_S, fold_left_app. simpl.
  replace (lo + (hi - lo))%nat with hi by lia. reflexivity.
Qed.

(** A loop invariant [P i s] (the state before iteration [i]) that holds on
    entry and is kept by the body holds on exit. *)
Lemma for_range_invariant (P : nat -> S -> Prop) (lo hi : nat)
    (body : nat -> S -> S) (s : S) :
  (lo <= hi)%nat ->
  P lo s ->
  (forall i st, (lo <= i < hi)%nat -> P i st -> P (Datatypes.S i) (body i st)) ->
  P hi (Js.for_range lo hi body s).
Proof.
  intros Hle H0 Hstep.
  induction hi as [|k IH].
  - assert (lo = 0)%nat by lia. subst. rewrite for_range_empty by lia. exact H0.
  - destruct (Nat.eq_dec lo (Datatypes.S k)) as [->|Hne].
    + rewrite for_range_empty by lia. exact H0.
    + rewrite for_range_last by lia.
      apply Hstep; [lia|].
      apply IH; [lia|].
      intros i st Hi. apply Hstep. lia.
Qed.

End Loops.

Lemma get_of_nat {A : Type} (a : list A) (i : nat) :
  Js.get a (Z.of_nat i) = nth_error a i.
Proof.
  unfold Js.get.
  destruct (Z.ltb_spec (Z.of_nat i) 0); [lia|].
  now rewrite Nat2Z.id.
Qed.

Lemma get_in_range {A : Type} (a : list A) (i : nat) :
  (i < length a)%nat -> exists v, Js.get a (Z.of_nat i) = Some v.
Proof.
  intros Hlt. rewrite get_of_nat.
  destruct (nth_error a i) eqn:E; [eauto|].
  apply nth_error_None in E. lia.
Qed.

(** Both call sites hand the analyser a [Uint8Array]. *)
Lemma Uint8Array_from_uint8 (a : list Z) : Forall Js.uint8 (Js.Uint8Array_from a).
Proof.
  unfold Js.Uint8Array_from. apply Forall_map, Forall_forall.
  intros v _. unfold Js.uint8.
  pose proof (Z.mod_pos_bound v 256 ltac:(lia)). lia.
Qed.

(** ** SpectralAnalyzer *)

Section Analyzer.

Import SpectralAnalyzer Invariants.

Lemma peak_step_inv (a : list Z) (i : nat) (s : Z * nat) :
  (i < length a)%nat -> peak_inv a i s -> peak_inv a (S i) (peak_step a i s).
Proof.
  intros Hi Hinv. destruct s as [maxValue peakBin].
  unfold peak_step. rewrite get_of_nat.
  destruct (nth_error a i) as [v|] eqn:Ev.
  2:{ apply nth_error_None in Ev. lia. }
  assert (Hsplit : forall j, (j < S i)%nat -> (j < i)%nat \/ j = i) by (intros; lia).
  destruct (Z.gtb_spec v maxValue) as [Hgt|Hle].
  - right. destruct Hinv as [(-> & -> & Hall) | (Hp & Hnth & Hpos & Hall & Hfirst)].
    + repeat split; [lia | exact Ev | lia | | ].
      * intros j w Hj Hw. destruct (Hsplit j Hj) as [Hlt| ->].
        -- specialize (Hall j w Hlt Hw). lia.
        -- rewrite Ev in Hw. injection Hw as <-. lia.
      * intros j w Hj Hw. specialize (Hall j w Hj Hw). lia.
    + repeat split; [lia | exact Ev | lia | | ].
      * intros j w Hj Hw. destruct (Hsplit j Hj) as [Hlt| ->].
        -- specialize (Hall j w Hlt Hw). lia.
        -- rewrite Ev in Hw. injection Hw as <-. lia.
      * intros j w Hj Hw. specialize (Hall j w Hj Hw). lia.
  - destruct Hinv as [(-> & -> & Hall) | (Hp & Hnth & Hpos & Hall & Hfirst)].
    + left. repeat split; trivial.
      intros j w Hj Hw. destruct (Hsplit j Hj) as [Hlt| ->].
      * exact (Hall j w Hlt Hw).
      * rewrite Ev in Hw. injection Hw as <-. lia.
    + right. repeat split; [lia | exact Hnth | lia | | exact Hfirst].
      intros j w Hj Hw. destruct (Hsplit j Hj) as [Hlt| ->].
      * exact (Hall j w Hlt Hw).
      * rewrite Ev in Hw. injection Hw as <-. lia.
Qed.

Lemma scanPeak_inv (a : list Z) : peak_inv a (length a) (scanPeak a).
Proof.
  unfold scanPeak.
  apply (for_range_invariant (peak_inv a)); [lia | | ].
  - left. repeat split; trivial. intros j v Hj. lia.
  - intros i st Hi. apply peak_step_inv. lia.
Qed.

(** On the elements of a [Uint8Array], the first loop ends on the first
    greatest element. *)
Lemma scanPeak_first_max (a : list Z) :
  a <> [] -> Forall Js.uint8 a ->
  exists vp,
    nth_error a (snd (scanPeak a)) = Some vp /\
    (forall j v, nth_error a j = Some v -> (v <= vp)%Z) /\
    (forall j v, (j < snd (scanPeak a))%nat -> nth_error a j = Some v -> (v < vp)%Z).
Proof.
  intros Hne Hu8.
  pose proof (scanPeak_inv a) as Hinv.
  destruct (scanPeak a) as [maxValue peakBin]. simpl in *.
  assert (Hrange : forall j v, nth_error a j = Some v -> (j < length a)%nat).
  { intros j v Hj. apply nth_error_Some. congruence. }
  destruct Hinv as [(-> & -> & Hall) | (Hp & Hnth & Hpos & Hall & Hfirst)].
  - destruct a as [|v0 rest]; [congruence|].
    exists v0. split; [reflexivity|]. split.
    + intros j v Hj.
      assert (v <= 0)%Z by (apply (Hall j v); [apply (Hrange j v Hj) | exact Hj]).
      inversion Hu8 as [|? ? H0 _]; subst. unfold Js.uint8 in H0. lia.
    + intros j v Hj. lia.
  - exists maxValue. split; [exact Hnth|]. split.
    + intros j v Hj. apply (Hall j v); [apply (Hrange j v Hj) | exact Hj].
    + exact Hfirst.
Qed.

Lemma scanPeak_zeros (a : list Z) :
  Forall (fun v => v = 0%Z) a -> snd (scanPeak a) = 0%nat.
Proof.
  intros Hz.
  pose proof (scanPeak_inv a) as Hinv.
  destruct (scanPeak a) as [maxValue peakBin]. simpl.
  destruct Hinv as [(_ & -> & _) | (Hp & Hnth & Hpos & _)]; [reflexivity|].
  apply nth_error_In in Hnth.
  rewrite Forall_forall in Hz. apply Hz in Hnth. lia.
Qed.

(** The test of the second loop is the local-peak test of the specification. *)
Lemma isPeak_spec (a : list Z) (i : nat) (v : Z) :
  (1 <= i)%nat -> nth_error a i = Some v ->
  (v >? 50)%Z && isPeak a i v = spec_localPeak a i.
Proof.
  intros Hi Hv. unfold isPeak, spec_localPeak. rewrite Hv.
  assert (Hlen : (i < length a)%nat) by (apply nth_error_Some; congruence).
  replace (Z.of_nat i - 1)%Z with (Z.of_nat (i - 1)) by lia.
  replace (Z.of_nat i + 1)%Z with (Z.of_nat (i + 1)) by lia.
  rewrite !get_of_nat.
  destruct (Nat.eqb_spec i 0) as [?|_]; [lia|]. simpl orb.
  destruct (nth_error a (i - 1)) as [p|] eqn:Ep.
  2:{ apply nth_error_None in Ep. lia. }
  unfold Js.lt at 1.
  rewrite Z.gtb_ltb.
  destruct (Z.eqb_spec (Z.of_nat i) (Z.of_nat (length a) - 1)) as [Hlast|Hmid].
  - assert (E : nth_error a (i + 1) = None) by (apply nth_error_None; lia).
    rewrite E. simpl. now rewrite andb_assoc.
  - destruct (nth_error a (i + 1)) as [n|] eqn:En.
    + simpl. now rewrite andb_assoc.
    + apply nth_error_None in En. lia.
Qed.

Lemma fundamental_step_inv (a : list Z) (i : nat) (s : nat * Z) :
  (1 <= i < length a)%nat ->
  fundamental_inv a i s -> fundamental_inv a (S i) (fundamental_step a i s).
Proof.
  intros Hi Hinv. destruct s as [fb fv].
  unfold fundamental_step. rewrite get_of_nat.
  destruct (nth_error a i) as [v|] eqn:Ev.
  2:{ apply nth_error_None in Ev. lia. }
  assert (Hsplit : forall j, (1 <= j < S i)%nat -> (1 <= j < i)%nat \/ j = i)
    by (intros; lia).
  pose proof (isPeak_spec a i v (proj1 Hi) Ev) as Hpk.
  destruct (Z.gtb_spec v fv) as [Hgt|Hle]; simpl andb.
  - destruct (Z.gtb_spec v 50) as [H50|H50]; simpl in Hpk.
    + destruct (isPeak a i v); symmetry in Hpk.
      * right. destruct Hinv as [(-> & -> & Hnone) | (Hb & Hq & Hnth & Hall & Hfirst)].
        -- repeat split; [lia | lia | exact Hpk | exact Ev | | ].
           ++ intros j w Hj Hqj Hw. destruct (Hsplit j Hj) as [Hlt| ->].
              ** rewrite (Hnone j Hlt) in Hqj. discriminate.
              ** rewrite Ev in Hw. injection Hw as <-. lia.
           ++ intros j w Hj Hqj Hw. rewrite (Hnone j Hj) in Hqj. discriminate.
        -- repeat split; [lia | lia | exact Hpk | exact Ev | | ].
           ++ intros j w Hj Hqj Hw. destruct (Hsplit j Hj) as [Hlt| ->].
              ** specialize (Hall j w Hlt Hqj Hw). lia.
              ** rewrite Ev in Hw. injection Hw as <-. lia.
           ++ intros j w Hj Hqj Hw. specialize (Hall j w Hj Hqj Hw). lia.
      * destruct Hinv as [(-> & -> & Hnone) | (Hb & Hq & Hnth & Hall & Hfirst)].
        -- left. repeat split; trivial.
           intros j Hj. destruct (Hsplit j Hj) as [Hlt| ->]; auto.
        -- right. repeat split; [lia | lia | exact Hq | exact Hnth | | exact Hfirst].
           intros j w Hj Hqj Hw. destruct (Hsplit j Hj) as [Hlt| ->].
           ++ exact (Hall j w Hlt Hqj Hw).
           ++ congruence.
    + symmetry in Hpk.
      destruct Hinv as [(-> & -> & Hnone) | (Hb & Hq & Hnth & Hall & Hfirst)].
      * left. repeat split; trivial.
        intros j Hj. destruct (Hsplit j Hj) as [Hlt| ->]; auto.
      * right. repeat split; [lia | lia | exact Hq | exact Hnth | | exact Hfirst].
        intros j w Hj Hqj Hw. destruct (Hsplit j Hj) as [Hlt| ->].
        -- exact (Hall j w Hlt Hqj Hw).
        -- congruence.
  - destruct Hinv as [(-> & -> & Hnone) | (Hb & Hq & Hnth & Hall & Hfirst)].
    + left. repeat split; trivial.
      intros j Hj. destruct (Hsplit j Hj) as [Hlt| ->]; auto.
      destruct (Z.gtb_spec v 50) as [H50|H50]; [lia|].
      simpl in Hpk. congruence.
    + right. repeat split; [lia | lia | exact Hq | exact Hnth | | exact Hfirst].
      intros j w Hj Hqj Hw. destruct (Hsplit j Hj) as [Hlt| ->].
      * exact (Hall j w Hlt Hqj Hw).
      * rewrite Ev in Hw. injection Hw as <-. lia.
Qed.

(** The upper bound of the second loop, as a bin count. *)
Lemma scanned_iff (a : list Z) (SR N : Q) (i : nat) :
  scanned a SR N i = true <->
  (1 <= i < Z.to_nat (Z.min (lowFreqLimit SR N) (Z.of_nat (length a))))%nat.
Proof.
  unfold scanned. rewrite andb_true_iff, Nat.leb_le, Z.ltb_lt. lia.
Qed.

Lemma scanFundamental_inv (a : list Z) (SR N : Q) :
  fundamental_inv a
    (Nat.max 1 (Z.to_nat (Z.min (lowFreqLimit SR N) (Z.of_nat (length a)))))
    (scanFundamental a SR N).
Proof.
  unfold scanFundamental.
  set (hi := Z.to_nat (Z.min (lowFreqLimit SR N) (Z.of_nat (length a)))).
  assert (Hhi : (hi <= length a)%nat) by (unfold hi; lia).
  destruct (Nat.le_gt_cases 1 hi) as [Hle|Hgt].
  - replace (Nat.max 1 hi) with hi by lia.
    apply (for_range_invariant (fundamental_inv a)); [exact Hle | | ].
    + left. repeat split; trivial. intros j Hj. lia.
    + intros i st Hi. apply fundamental_step_inv. lia.
  - rewrite for_range_empty by lia.
    left. repeat split; trivial. intros j Hj. lia.
Qed.

Lemma analysis_nonempty (a : list Z) (SR N : Q) :
  a <> [] ->
  calculateFrequencyAnalysis a SR N =
  Some (mkAnalysis
          (binFreq (snd (scanPeak a)) SR N)
          (if Js.Qgt_bool (binFreq (fst (scanFundamental a SR N)) SR N) 10
           then Some (binFreq (fst (scanFundamental a SR N)) SR N) else None)
          (if Js.Qgt_bool (binFreq (fst (scanFundamental a SR N)) SR N) 10
           then Js.for_range 2 5
                  (harmonic_step a (binFreq (fst (scanFundamental a SR N)) SR N) SR N) []
           else [])).
Proof.
  intros Hne. unfold calculateFrequencyAnalysis.
  destruct a; [congruence|]. reflexivity.
Qed.

Lemma binFreq_0 (SR N : Q) : binFreq 0 SR N == 0.
Proof. unfold binFreq, Qdiv. simpl. ring. Qed.

Lemma Qgt_bool_true (x y : Q) : Js.Qgt_bool x y = true <-> y < x.
Proof.
  unfold Js.Qgt_bool. rewrite negb_true_iff.
  destruct (Qle_bool x y) eqn:E.
  - apply Qle_bool_iff in E. split; [discriminate|]. intros H. exfalso. lra.
  - split; [|reflexivity]. intros _.
    destruct (Qlt_le_dec y x) as [Hlt|Hle]; [exact Hlt|].
    apply Qle_bool_iff in Hle. congruence.
Qed.

Lemma Qgt_bool_false (x y : Q) : Js.Qgt_bool x y = false <-> x <= y.
Proof.
  unfold Js.Qgt_bool. rewrite negb_false_iff. apply Qle_bool_iff.
Qed.

Lemma zeros_no_peak (a : list Z) (i : nat) :
  Forall (fun v => v = 0%Z) a -> spec_localPeak a i = false.
Proof.
  intros Hz. unfold spec_localPeak.
  destruct (nth_error a i) as [v|] eqn:Ev; [|reflexivity].
  apply nth_error_In in Ev. rewrite Forall_forall in Hz.
  rewrite (Hz v Ev). reflexivity.
Qed.

Lemma scanFundamental_zeros (a : list Z) (SR N : Q) :
  Forall (fun v => v = 0%Z) a -> fst (scanFundamental a SR N) = 0%nat.
Proof.
  intros Hz. pose proof (scanFundamental_inv a SR N) as Hinv.
  destruct (scanFundamental a SR N) as [fb fv]. simpl.
  destruct Hinv as [(-> & _) | (_ & Hq & _)]; [reflexivity|].
  rewrite zeros_no_peak in Hq by assumption. discriminate.
Qed.

(** Every bin the second loop visits lies below 2000 Hz. *)
Lemma scanned_below_2000 (a : list Z) (SR N : Q) (i : nat) :
  0 < SR -> 0 < N -> scanned a SR N i = true -> binFreq i SR N < 2000.
Proof.
  intros HSR HN Hs. apply scanned_iff in Hs.
  assert (Hlim : (Z.of_nat i + 1 <= lowFreqLimit SR N)%Z) by lia.
  unfold lowFreqLimit in Hlim.
  pose proof (Qfloor_le ((2000 * N) / SR)) as Hfl.
  assert (Hq : inject_Z (Z.of_nat i) + 1 <= (2000 * N) / SR).
  { apply Qle_trans with (inject_Z (Z.of_nat i + 1)).
    - rewrite inject_Z_plus. apply Qle_refl.
    - apply Qle_trans with (inject_Z (Qfloor ((2000 * N) / SR))); [|exact Hfl].
      rewrite <- Zle_Qle. exact Hlim. }
  unfold binFreq.
  apply Qlt_shift_div_r; [exact HN|].
  apply (Qmult_le_r _ _ SR HSR) in Hq.
  assert (E : (2000 * N) / SR * SR == 2000 * N) by (field; lra).
  rewrite E in Hq. nra.
Qed.

(** The bins of the restricted search are the bins the loop visits. *)
Lemma spec_searched_scanned (a : list Z) (SR N : Q) (i : nat) :
  spec_searched a SR N i = scanned a SR N i.
Proof.
  apply eq_true_iff_eq. unfold spec_searched, scanned, lowFreqLimit.
  rewrite !andb_true_iff, Nat.leb_le, Nat.ltb_lt, !Z.ltb_lt. lia.
Qed.

Lemma spec_candidate_candidate (a : list Z) (SR N : Q) (i : nat) :
  spec_candidate a SR N i = candidate a SR N i.
Proof. unfold spec_candidate, candidate. now rewrite spec_searched_scanned. Qed.

Lemma Qfloor_ge (z : Z) (q : Q) : (z <= Qfloor q)%Z <-> inject_Z z <= q.
Proof.
  split.
  - intros Hz. apply Qle_trans with (inject_Z (Qfloor q)); [|apply Qfloor_le].
    now rewrite <- Zle_Qle.
  - intros Hq. rewrite <- (Qfloor_Z z). now apply Qfloor_resp_le.
Qed.

Lemma Qdiv_le_mult (x y c : Q) : 0 < c -> (x / c <= y <-> x <= y * c).
Proof.
  intros Hc. split; intros H.
  - apply (Qmult_le_r _ _ c Hc) in H.
    assert (E : x / c * c == x) by (field; lra).
    now rewrite E in H.
  - now apply Qle_shift_div_r.
Qed.

Lemma Qle_div_mult (x y c : Q) : 0 < c -> (x <= y / c <-> x * c <= y).
Proof.
  intros Hc. split; intros H.
  - apply (Qmult_le_r _ _ c Hc) in H.
    assert (E : y / c * c == y) by (field; lra).
    now rewrite E in H.
  - now apply Qle_shift_div_l.
Qed.

(** A bin inside the array is searched exactly when the frequency of the
    next bin is at most 2000 Hz. *)
Lemma spec_searched_next (a : list Z) (SR N : Q) (i : nat) :
  0 < SR -> 0 < N -> (1 <= i < length a)%nat ->
  (spec_searched a SR N i = true
   <-> (inject_Z (Z.of_nat (S i)) * SR) / N <= 2000).
Proof.
  intros HSR HN Hi. unfold spec_searched.
  rewrite !andb_true_iff, Nat.leb_le, Nat.ltb_lt, Z.ltb_lt.
  rewrite (Qdiv_le_mult _ _ N HN), <- (Qle_div_mult _ _ SR HSR), <- Qfloor_ge.
  lia.
Qed.

(** What the second loop leaves, in terms of the bins it visits. *)
Lemma scanFundamental_best (a : list Z) (SR N : Q) :
  a <> [] -> 0 < SR -> 0 < N ->
  exists r : Analysis,
    calculateFrequencyAnalysis a SR N = Some r /\
    (forall i, scanned a SR N i = true -> i <> 0%nat /\ binFreq i SR N < 2000) /\
    (((forall i, candidate a SR N i = false) /\ fundamental r = None)
     \/
     (exists (b : nat) (vb : Z),
        candidate a SR N b = true /\
        nth_error a b = Some vb /\
        (forall j v, candidate a SR N j = true -> nth_error a j = Some v ->
                     (v <= vb)%Z /\ ((j < b)%nat -> (v < vb)%Z)) /\
        (10 < binFreq b SR N -> fundamental r = Some (binFreq b SR N)) /\
        (binFreq b SR N <= 10 -> fundamental r = None))).
Proof.
  intros Hne HSR HN.
  eexists. split; [apply (analysis_nonempty a SR N Hne)|]. simpl.
  split.
  { intros i Hs. split.
    - apply scanned_iff in Hs. lia.
    - now apply (scanned_below_2000 a). }
  pose proof (scanFundamental_inv a SR N) as Hinv.
  destruct (scanFundamental a SR N) as [fb fv]. simpl.
  set (hi := Z.to_nat (Z.min (lowFreqLimit SR N) (Z.of_nat (length a)))) in *.
  assert (Hrange : forall j, scanned a SR N j = true -> (1 <= j < Nat.max 1 hi)%nat).
  { intros j Hj. apply scanned_iff in Hj. fold hi in Hj. lia. }
  destruct Hinv as [(-> & -> & Hnone) | (Hb & Hq & Hnth & Hall & Hfirst)].
  - left. split.
    + intros i. unfold candidate.
      destruct (scanned a SR N i) eqn:Es; [|reflexivity].
      simpl. apply Hnone, Hrange, Es.
    + assert (E : Js.Qgt_bool (binFreq 0 SR N) 10 = false).
      { apply Qgt_bool_false. rewrite binFreq_0. lra. }
      now rewrite E.
  - right. exists fb, fv.
    assert (Hsb : scanned a SR N fb = true).
    { apply scanned_iff. fold hi. lia. }
    repeat split.
    + unfold candidate. now rewrite Hsb, Hq.
    + exact Hnth.
    + unfold candidate in H. apply andb_true_iff in H as [Hs Hp].
      apply (Hall j v); auto.
    + intros Hlt. unfold candidate in H. apply andb_true_iff in H as [Hs Hp].
      apply (Hfirst j v); auto. apply Hrange in Hs. lia.
    + intros Hgt. apply Qgt_bool_true in Hgt. now rewrite Hgt.
    + intros Hle. apply Qgt_bool_false in Hle. now rewrite Hle.
Qed.

End Analyzer.

(** C4. Dominant frequency.  On a non-empty [Uint8Array] of magnitudes, with
    a transform size that is not zero, the analyser returns a summary,
    without error, whose dominant frequency is [p * sampleRate / fftSize]
    for the bin [p] holding the greatest magnitude, the first such bin in
    ascending index order.  When every magnitude is zero, that bin is bin 0,
    the dominant frequency is 0 Hz, there is no fundamental and the list of
    harmonics is empty. *)
Theorem dominant_frequency (a : list Z) (SR N : Q) :
  a <> [] -> Forall Js.uint8 a -> ~ N == 0 ->
  exists (r : SpectralAnalyzer.Analysis) (p : nat) (vp : Z),
    SpectralAnalyzer.calculateFrequencyAnalysis a SR N = Some r /\
    SpectralAnalyzer.topResonating r = (inject_Z (Z.of_nat p) * SR) / N /\
    nth_error a p = Some vp /\
    (forall j v, nth_error a j = Some v -> (v <= vp)%Z) /\
    (forall j v, (j < p)%nat -> nth_error a j = Some v -> (v < vp)%Z) /\
    (Forall (fun v => v = 0%Z) a ->
       p = 0%nat /\ SpectralAnalyzer.topResonating r == 0 /\
       SpectralAnalyzer.fundamental r = None /\
       SpectralAnalyzer.harmonics r = []).
Proof.
  intros Hne Hu8 _.
  destruct (scanPeak_first_max a Hne Hu8) as (vp & Hnth & Hmax & Hfirst).
  eexists. exists (snd (SpectralAnalyzer.scanPeak a)), vp.
  split; [apply (analysis_nonempty a SR N Hne)|]. simpl.
  split; [reflexivity|].
  repeat split; try assumption.
  - apply scanPeak_zeros; assumption.
  - rewrite scanPeak_zeros by assumption. apply binFreq_0.
  - rewrite scanFundamental_zeros by assumption.
    assert (E : Js.Qgt_bool (SpectralAnalyzer.binFreq 0 SR N) 10 = false).
    { apply Qgt_bool_false. rewrite binFreq_0. lra. }
    now rewrite E.
  - rewrite scanFundamental_zeros by assumption.
    assert (E : Js.Qgt_bool (SpectralAnalyzer.binFreq 0 SR N) 10 = false).
    { apply Qgt_bool_false. rewrite binFreq_0. lra. }
    now rewrite E.
Qed.

(** A frame of 1024 zeros at 44100 Hz with a transform of 2048 samples. *)
Lemma dominant_frequency_witness :
  exists (r : SpectralAnalyzer.Analysis) (p : nat) (vp : Z),
    SpectralAnalyzer.calculateFrequencyAnalysis (repeat 0%Z 1024) 44100 2048 = Some r /\
    SpectralAnalyzer.topResonating r = (inject_Z (Z.of_nat p) * 44100) / 2048 /\
    nth_error (repeat 0%Z 1024) p = Some vp /\
    (forall j v, nth_error (repeat 0%Z 1024) j = Some v -> (v <= vp)%Z) /\
    (forall j v, (j < p)%nat -> nth_error (repeat 0%Z 1024) j = Some v -> (v < vp)%Z) /\
    (Forall (fun v => v = 0%Z) (repeat 0%Z 1024) ->
       p = 0%nat /\ SpectralAnalyzer.topResonating r == 0 /\
       SpectralAnalyzer.fundamental r = None /\
       SpectralAnalyzer.harmonics r = []).
Proof.
  apply (dominant_frequency (repeat 0%Z 1024) 44100 2048).
  - discriminate.
  - apply Forall_forall. intros v Hv. apply repeat_spec in Hv. subst v.
    unfold Js.uint8. lia.
  - discriminate.
Defined.

(** C5, as the code has it.  The search is restricted to the bins [i] of the
    array with [1 <= i < floor(2000 * fftSize / sampleRate)], never bin 0.
    Every such bin lies below 2000 Hz, and a bin of the array is searched
    exactly when the frequency of the next bin is at most 2000 Hz.  A
    searched bin qualifies when its magnitude is above 50 and above each
    neighbour that exists.  Either no searched bin qualifies and no
    fundamental is reported, or the loop keeps the qualifying bin [b] of
    greatest magnitude, the first such bin in scan order, and reports its
    frequency [b * sampleRate / fftSize] exactly when that frequency is
    above 10 Hz. *)
Theorem fundamental_estimate (a : list Z) (SR N : Q) :
  a <> [] -> 0 < SR -> 0 < N ->
  exists r : SpectralAnalyzer.Analysis,
    SpectralAnalyzer.calculateFrequencyAnalysis a SR N = Some r /\
    (forall i, Invariants.spec_searched a SR N i = true ->
               i <> 0%nat /\ (inject_Z (Z.of_nat i) * SR) / N < 2000) /\
    (forall i, (1 <= i < length a)%nat ->
               (Invariants.spec_searched a SR N i = true
                <-> (inject_Z (Z.of_nat (S i)) * SR) / N <= 2000)) /\
    (((forall i, Invariants.spec_candidate a SR N i = false) /\
      SpectralAnalyzer.fundamental r = None)
     \/
     (exists (b : nat) (vb : Z),
        Invariants.spec_candidate a SR N b = true /\
        nth_error a b = Some vb /\
        (forall j v, Invariants.spec_candidate a SR N j = true ->
                     nth_error a j = Some v ->
                     (v <= vb)%Z /\ ((j < b)%nat -> (v < vb)%Z)) /\
        (10 < (inject_Z (Z.of_nat b) * SR) / N ->
           SpectralAnalyzer.fundamental r = Some ((inject_Z (Z.of_nat b) * SR) / N)) /\
        ((inject_Z (Z.of_nat b) * SR) / N <= 10 ->
           SpectralAnalyzer.fundamental r = None))).
Proof.
  intros Hne HSR HN.
  destruct (scanFundamental_best a SR N Hne HSR HN) as (r & Hr & Hrange & Hcases).
  exists r. split; [exact Hr|]. split; [|split].
  - intros i Hs. rewrite spec_searched_scanned in Hs. exact (Hrange i Hs).
  - intros i Hi. now apply spec_searched_next.
  - destruct Hcases as [[Hnone Hf] | (b & vb & Hc & Hnth & Hbest & Hgt & Hle)].
    + left. split; [|exact Hf].
      intros i. rewrite spec_candidate_candidate. apply Hnone.
    + right. exists b, vb.
      split; [now rewrite spec_candidate_candidate|].
      split; [exact Hnth|]. split; [|split; [exact Hgt | exact Hle]].
      intros j v Hj. rewrite spec_candidate_candidate in Hj. now apply Hbest.
Qed.

(** A spectrum with one peak of 60 at bin 1. *)
Lemma fundamental_estimate_witness :
  exists r : SpectralAnalyzer.Analysis,
    SpectralAnalyzer.calculateFrequencyAnalysis [0; 60; 0]%Z 44100 2048 = Some r /\
    (forall i, Invariants.spec_searched [0; 60; 0]%Z 44100 2048 i = true ->
               i <> 0%nat /\ (inject_Z (Z.of_nat i) * 44100) / 2048 < 2000) /\
    (forall i, (1 <= i < length [0; 60; 0]%Z)%nat ->
               (Invariants.spec_searched [0; 60; 0]%Z 44100 2048 i = true
                <-> (inject_Z (Z.of_nat (S i)) * 44100) / 2048 <= 2000)) /\
    (((forall i, Invariants.spec_candidate [0; 60; 0]%Z 44100 2048 i = false) /\
      SpectralAnalyzer.fundamental r = None)
     \/
     (exists (b : nat) (vb : Z),
        Invariants.spec_candidate [0; 60; 0]%Z 44100 2048 b = true /\
        nth_error [0; 60; 0]%Z b = Some vb /\
        (forall j v, Invariants.spec_candidate [0; 60; 0]%Z 44100 2048 j = true ->
                     nth_error [0; 60; 0]%Z j = Some v ->
                     (v <= vb)%Z /\ ((j < b)%nat -> (v < vb)%Z)) /\
        (10 < (inject_Z (Z.of_nat b) * 44100) / 2048 ->
           SpectralAnalyzer.fundamental r
           = Some ((inject_Z (Z.of_nat b) * 44100) / 2048)) /\
        ((inject_Z (Z.of_nat b) * 44100) / 2048 <= 10 ->
           SpectralAnalyzer.fundamental r = None))).
Proof.
  apply (fundamental_estimate [0; 60; 0]%Z 44100 2048).
  - discriminate.
  - reflexivity.
  - reflexivity.
Defined.

(** C5, as the specification words it: at 44100 Hz with a transform of 2048
    samples, bin 92 lies at 1981 Hz, below 2000 Hz and above 10 Hz.  A lone
    magnitude of 200 there is a local peak above 50, and the only one of the
    spectrum, yet no fundamental is reported: the search stops before
    bin 92, because the frequency of bin 93 is above 2000 Hz. *)
Lemma fundamental_skips_bin_92 :
  (92 * 44100) / 2048 < 2000 /\
  10 < (92 * 44100) / 2048 /\
  2000 < (93 * 44100) / 2048 /\
  nth_error (Invariants.lonePeak 1024 92 200) 92 = Some 200%Z /\
  Invariants.spec_localPeak (Invariants.lonePeak 1024 92 200) 92 = true /\
  (forall i, Invariants.spec_localPeak (Invariants.lonePeak 1024 92 200) i = true ->
             i = 92%nat) /\
  SpectralAnalyzer.calculateFrequencyAnalysis
    (Invariants.lonePeak 1024 92 200) 44100 2048
  = Some (SpectralAnalyzer.mkAnalysis (4057200 # 2048) None []) /\
  ~ (exists (r : SpectralAnalyzer.Analysis) (f : Q),
       SpectralAnalyzer.calculateFrequencyAnalysis
         (Invariants.lonePeak 1024 92 200) 44100 2048 = Some r /\
       SpectralAnalyzer.fundamental r = Some f).
Proof.
  assert (E : SpectralAnalyzer.calculateFrequencyAnalysis
                (Invariants.lonePeak 1024 92 200) 44100 2048
              = Some (SpectralAnalyzer.mkAnalysis (4057200 # 2048) None []))
    by (vm_compute; reflexivity).
  do 5 (split; [vm_compute; reflexivity|]).
  split; [|split; [exact E|]].
  - intros i Hi.
    destruct (Nat.lt_ge_cases i 1024) as [Hlt|Hge].
    + assert (Hall : forallb
                       (fun j => negb (Invariants.spec_localPeak
                                         (Invariants.lonePeak 1024 92 200) j)
                                 || (j =? 92)%nat)
                       (seq 0 1024) = true) by (vm_compute; reflexivity).
      rewrite forallb_forall in Hall.
      assert (Hin : In i (seq 0 1024)) by (apply in_seq; lia).
      specialize (Hall i Hin). rewrite Hi in Hall. simpl in Hall.
      now apply Nat.eqb_eq.
    + unfold Invariants.spec_localPeak in Hi.
      assert (Hnone : nth_error (Invariants.lonePeak 1024 92 200) i = None).
      { apply nth_error_None. unfold Invariants.lonePeak.
        now rewrite length_map, length_seq. }
      rewrite Hnone in Hi. discriminate.
  - intros (r & f & Hr & Hf). rewrite E in Hr. apply some_eq in Hr. subst r.
    discriminate.
Qed.

Section Harmonics.

Import SpectralAnalyzer.

Variables (a : list Z) (f SR N : Q).

(** What one iteration of the third loop appends. *)
Lemma harmonic_step_app (n : nat) (acc : list Harmonic) :
  harmonic_step a f SR N n acc = acc ++ harmonic_step a f SR N n [].
Proof.
  unfold harmonic_step.
  destruct (_ <? _)%Z; [|now rewrite app_nil_r].
  destruct (Js.get a _) as [v|]; [|now rewrite app_nil_r].
  destruct (v >? 30)%Z; [reflexivity | now rewrite app_nil_r].
Qed.

Lemma harmonic_loop_unfold :
  Js.for_range 2 5 (harmonic_step a f SR N) [] =
  harmonic_step a f SR N 2 [] ++ harmonic_step a f SR N 3 []
  ++ harmonic_step a f SR N 4 [].
Proof.
  unfold Js.for_range. simpl.
  rewrite (harmonic_step_app 4), (harmonic_step_app 3).
  now rewrite <- app_assoc.
Qed.

Lemma harmonic_step_In (n : nat) (h : Harmonic) :
  In h (harmonic_step a f SR N n []) <->
  order h = Z.of_nat n /\
  frequency h = f * inject_Z (order h) /\
  (harmonicBin (frequency h) SR N < Z.of_nat (length a))%Z /\
  Js.get a (harmonicBin (frequency h) SR N) = Some (amplitude h) /\
  (30 < amplitude h)%Z.
Proof.
  unfold harmonic_step.
  set (hf := f * inject_Z (Z.of_nat n)).
  split.
  - destruct (Z.ltb_spec (harmonicBin hf SR N) (Z.of_nat (length a))) as [Hlt|Hge];
      [|intros []].
    destruct (Js.get a (harmonicBin hf SR N)) as [v|] eqn:Ev; [|intros []].
    destruct (Z.gtb_spec v 30) as [Hgt|Hle]; [|intros []].
    intros [<-|[]]. simpl. fold hf. repeat split; trivial; lia.
  - intros (Ho & Hf & Hlt & Hget & Hamp).
    destruct h as [o fr am]. simpl in *. subst o. fold hf in Hf. subst fr.
    destruct (Z.ltb_spec (harmonicBin hf SR N) (Z.of_nat (length a))) as [_|Hge];
      [|lia].
    rewrite Hget.
    destruct (Z.gtb_spec am 30) as [_|Hle]; [|lia].
    now left.
Qed.

Lemma harmonic_step_orders (n : nat) :
  Forall (fun h => order h = Z.of_nat n) (harmonic_step a f SR N n []).
Proof.
  apply Forall_forall. intros h Hh. now apply harmonic_step_In in Hh.
Qed.

Lemma harmonic_step_short (n : nat) :
  harmonic_step a f SR N n [] = [] \/
  exists h, harmonic_step a f SR N n [] = [h] /\ order h = Z.of_nat n.
Proof.
  unfold harmonic_step.
  destruct (_ <? _)%Z; [|now left].
  destruct (Js.get a _) as [v|]; [|now left].
  destruct (v >? 30)%Z; [|now left].
  right. eexists. split; reflexivity.
Qed.


Lemma harmonic_loop_In (h : Harmonic) :
  In h (Js.for_range 2 5 (harmonic_step a f SR N) []) <->
  (order h = 2 \/ order h = 3 \/ order h = 4)%Z /\
  frequency h = f * inject_Z (order h) /\
  (harmonicBin (frequency h) SR N < Z.of_nat (length a))%Z /\
  Js.get a (harmonicBin (frequency h) SR N) = Some (amplitude h) /\
  (30 < amplitude h)%Z.
Proof.
  rewrite harmonic_loop_unfold, !in_app_iff, !harmonic_step_In.
  simpl Z.of_nat. tauto.
Qed.

End Harmonics.

Section Synthetic.

Import SpectralAnalyzer Invariants.

Variables (len b : nat) (v2 v3 v4 : Z) (SR N : Q).

Hypothesis HSR : 0 < SR.
Hypothesis HN : 0 < N.
Hypothesis Hb : (2 <= b)%nat.
Hypothesis Hlen : (4 * b < len)%nat.
Hypothesis Hlow : (Z.of_nat b < lowFreqLimit SR N)%Z.
Hypothesis Hv2 : (30 < v2 <= 200)%Z.
Hypothesis Hv3 : (30 < v3 <= 200)%Z.
Hypothesis Hv4 : (30 < v4 <= 200)%Z.

Let a := synthetic len b v2 v3 v4.











Lemma synthetic_harmonicBin (n : nat) :
  harmonicBin (binFreq b SR N * inject_Z (Z.of_nat n)) SR N = Z.of_nat (n * b).
Proof.
  unfold harmonicBin, binFreq.
  assert (E : ((inject_Z (Z.of_nat b) * SR) / N * inject_Z (Z.of_nat n) * N) / SR
              == inject_Z (Z.of_nat (n * b))).
  { rewrite Nat2Z.inj_mul, inject_Z_mult. field. lra. }
  rewrite E. apply Qfloor_Z.
Qed.



End Synthetic.

Section ExactParameters.

Import SpectralAnalyzer.

Variables (sr : Z) (k : nat).
Hypothesis Hsr : (0 < sr)%Z.

Lemma sampleRate_pos : 0 < inject_Z sr.
Proof. change 0 with (inject_Z 0). now rewrite <- Zlt_Qlt. Qed.

Lemma fftSize_pos : 0 < inject_Z (2 ^ Z.of_nat k).
Proof.
  change 0 with (inject_Z 0). rewrite <- Zlt_Qlt.
  apply Z.pow_pos_nonneg; lia.
Qed.



End ExactParameters.




Section Quiet.

Import SpectralAnalyzer Invariants.

(** No bin of a spectrum that stays at or below the threshold of 50 is a
    local peak, so the second loop keeps its initial state. *)
Lemma quiet_no_peak (a : list Z) (i : nat) :
  Forall (fun v => (v <= 50)%Z) a -> spec_localPeak a i = false.
Proof.
  intros Hq. unfold spec_localPeak.
  destruct (nth_error a i) as [v|] eqn:Ev; [|reflexivity].
  apply nth_error_In in Ev. rewrite Forall_forall in Hq.
  specialize (Hq v Ev).
  destruct (Z.ltb_spec 50 v); [lia | reflexivity].
Qed.

Lemma quiet_summary (a : list Z) (SR N : Q) :
  a <> [] -> Forall (fun v => (v <= 50)%Z) a ->
  exists r, calculateFrequencyAnalysis a SR N = Some r /\
            fundamental r = None /\ harmonics r = [].
Proof.
  intros Hne Hq.
  eexists. split; [apply (analysis_nonempty a SR N Hne)|]. simpl.
  assert (E0 : fst (scanFundamental a SR N) = 0%nat).
  { pose proof (scanFundamental_inv a SR N) as Hinv.
    destruct (scanFundamental a SR N) as [fb fv]. simpl.
    destruct Hinv as [(-> & _) | (_ & Hp & _)]; [reflexivity|].
    rewrite quiet_no_peak in Hp by assumption. discriminate. }
  rewrite E0.
  assert (E : Js.Qgt_bool (binFreq 0 SR N) 10 = false).
  { apply Qgt_bool_false. rewrite binFreq_0. lra. }
  rewrite E. split; reflexivity.
Qed.

End Quiet.

(** C9, as the code has it.  The analyser has no InvalidFrame error and
    does not validate the frame: it returns no summary ([null]) exactly when
    the magnitude array is empty and a summary for every other array,
    whatever its length and values.  On a non-empty array that is all zero,
    or more generally silent (no magnitude above 50), the summary has no
    fundamental and no harmonics. *)
Theorem analyzer_never_rejects (a : list Z) (SR N : Q) :
  (SpectralAnalyzer.calculateFrequencyAnalysis a SR N = None <-> a = []) /\
  (a <> [] -> exists r, SpectralAnalyzer.calculateFrequencyAnalysis a SR N = Some r) /\
  (a <> [] -> Forall (fun v => (v <= 50)%Z) a ->
   exists r, SpectralAnalyzer.calculateFrequencyAnalysis a SR N = Some r /\
             SpectralAnalyzer.fundamental r = None /\
             SpectralAnalyzer.harmonics r = []).
Proof.
  split; [|split].
  - split.
    + intros Hnone. destruct a as [|v rest]; [reflexivity|].
      rewrite analysis_nonempty in Hnone by discriminate. discriminate.
    + intros ->. reflexivity.
  - intros Hne. rewrite (analysis_nonempty a SR N Hne). eauto.
  - apply quiet_summary.
Qed.

Lemma analyzer_never_rejects_witness :
  exists r, SpectralAnalyzer.calculateFrequencyAnalysis (repeat 0%Z 1024) 44100 2048 = Some r /\
            SpectralAnalyzer.fundamental r = None /\
            SpectralAnalyzer.harmonics r = [].
Proof.
  apply (proj2 (proj2 (analyzer_never_rejects (repeat 0%Z 1024) 44100 2048))).
  - discriminate.
  - apply Forall_forall. intros v Hv. apply repeat_spec in Hv. subst v. lia.
Defined.

(** C9, as the specification words it: a frame of three magnitudes under a
    transform of 2048 samples (1024 bins), and a frame holding a negative
    value, are analysed like any other; on replay the negative value is
    first wrapped to 255 by [Uint8Array.from]. *)
Lemma malformed_frame_is_analysed :
  length [10; 20; 30]%Z <> 1024%nat /\
  SpectralAnalyzer.calculateFrequencyAnalysis [10; 20; 30]%Z 44100 2048 =
  Some (SpectralAnalyzer.mkAnalysis (88200 # 2048) None []) /\
  SpectralAnalyzer.calculateFrequencyAnalysis [-5; 3]%Z 44100 2048 =
  Some (SpectralAnalyzer.mkAnalysis (44100 # 2048) None []) /\
  ReplayEngine.analyse (mkFrame 0 [-1; 0]%Z []) 44100 2048 =
  Some (SpectralAnalyzer.mkAnalysis (0 # 2048) None []).
Proof.
  split; [discriminate|].
  repeat split; vm_compute; reflexivity.
Qed.

(** ** ReplayEngine *)

Section Replay.

Import ReplayEngine.

Lemma lastFrame_snoc (pre : list Frame) (f : Frame) :
  lastFrame (pre ++ [f]) = Some f.
Proof.
  unfold lastFrame. rewrite length_app. simpl.
  replace (Z.of_nat (length pre + 1) - 1)%Z with (Z.of_nat (length pre)) by lia.
  rewrite get_of_nat, nth_error_app2 by lia.
  now rewrite Nat.sub_diag.
Qed.

Lemma lastFrame_nonempty (frames : list Frame) :
  frames <> [] -> exists pre f, frames = pre ++ [f] /\ lastFrame frames = Some f.
Proof.
  intros Hne. destruct (exists_last Hne) as (pre & f & ->).
  exists pre, f. split; [reflexivity | apply lastFrame_snoc].
Qed.

Lemma lastFrame_empty : lastFrame [] = None.
Proof. reflexivity. Qed.

(** The loop stops on the first frame at or after [elapsed]. *)
Lemma selectLoop_found (frames : list Frame) (elapsed : Q) (d : Frame) :
  (exists g, In g frames /\ elapsed <= t g) ->
  exists pre post,
    frames = pre ++ selectLoop frames elapsed d :: post /\
    elapsed <= t (selectLoop frames elapsed d) /\
    (forall g, In g pre -> t g < elapsed).
Proof.
  induction frames as [|f rest IH]; intros (g & Hin & Hg).
  - destruct Hin.
  - simpl. destruct (Qle_bool elapsed (t f)) eqn:E.
    + apply Qle_bool_iff in E. exists [], rest. repeat split; trivial.
      intros ? [].
    + assert (Hlt : t f < elapsed).
      { destruct (Qlt_le_dec (t f) elapsed) as [H|H]; [exact H|].
        apply Qle_bool_iff in H. congruence. }
      destruct Hin as [-> | Hin]; [lra|].
      destruct IH as (pre & post & Hsplit & Hsel & Hpre); [eauto|].
      exists (f :: pre), post. repeat split; trivial.
      * simpl. now rewrite <- Hsplit.
      * intros h [<- | Hh]; auto.
Qed.

(** With no such frame the variable keeps its initial value. *)
Lemma selectLoop_fallback (frames : list Frame) (elapsed : Q) (d : Frame) :
  (forall g, In g frames -> t g < elapsed) -> selectLoop frames elapsed d = d.
Proof.
  induction frames as [|f rest IH]; intros Hall; [reflexivity|].
  simpl. destruct (Qle_bool elapsed (t f)) eqn:E.
  - apply Qle_bool_iff in E. specialize (Hall f (or_introl eq_refl)). lra.
  - apply IH. intros g Hg. apply Hall. now right.
Qed.

(** In a chronological list no frame is later than the last one. *)
Lemma chronological_last (pre : list Frame) (f g : Frame) :
  chronological (pre ++ [f]) -> In g (pre ++ [f]) -> t g <= t f.
Proof.
  unfold chronological. induction pre as [|h pre IH]; simpl; intros Hs Hin.
  - destruct Hin as [<- | []]. lra.
  - inversion Hs as [|? ? Hs' Hall]; subst.
    destruct Hin as [<- | Hin]; [|now apply IH].
    rewrite Forall_forall in Hall. apply Hall.
    apply in_or_app. right. now left.
Qed.

End Replay.

(** C2. Replay frame selection and termination.  On a non-empty
    chronological frame list, a tick at playback time [elapsed] draws the
    first frame whose time is at or after [elapsed]; when there is none,
    which is when [elapsed] exceeds the time of the last frame, it draws the
    last frame and playback ends ([isReplaying] becomes false); otherwise
    another tick is scheduled.  With frames at 0, 100 and 200 ms, the tick
    at 150 ms draws the frame at 200 ms, and the tick at 250 ms draws the
    frame at 200 ms and ends playback. *)
Theorem replay_frame_selection :
  (forall (frames : list Frame) (elapsed : Q),
     frames <> [] -> ReplayEngine.chronological frames ->
     exists sel last next,
       ReplayEngine.lastFrame frames = Some last /\
       ReplayEngine.drawReplay frames true elapsed = Some (sel, next) /\
       ((exists g, In g frames /\ elapsed <= t g) ->
        exists pre post,
          frames = pre ++ sel :: post /\ elapsed <= t sel /\
          (forall g, In g pre -> t g < elapsed)) /\
       ((forall g, In g frames -> t g < elapsed) -> sel = last /\ next = false) /\
       (t last < elapsed -> sel = last /\ next = false) /\
       (elapsed <= t last -> next = true))
  /\
  (forall f0 f1 f2 : Frame,
     t f0 = 0 -> t f1 = 100 -> t f2 = 200 ->
     ReplayEngine.drawReplay [f0; f1; f2] true 150 = Some (f2, true) /\
     ReplayEngine.drawReplay [f0; f1; f2] true 250 = Some (f2, false)).
Proof.
  split.
  - intros frames elapsed Hne Hchron.
    destruct (lastFrame_nonempty frames Hne) as (pre & last & Hsplit & Hlast).
    exists (ReplayEngine.selectLoop frames elapsed last), last,
           (Qle_bool elapsed (t last) && true).
    split; [exact Hlast|]. split.
    { unfold ReplayEngine.drawReplay, ReplayEngine.selectFrame, ReplayEngine.continues.
      now rewrite Hlast. }
    assert (Hstop : t last < elapsed -> Qle_bool elapsed (t last) && true = false).
    { intros Hlt. rewrite andb_true_r.
      destruct (Qle_bool elapsed (t last)) eqn:E; [|reflexivity].
      apply Qle_bool_iff in E. lra. }
    assert (Hnone : (forall g, In g frames -> t g < elapsed) ->
                    ReplayEngine.selectLoop frames elapsed last = last /\
                    Qle_bool elapsed (t last) && true = false).
    { intros Hall. split; [now apply selectLoop_fallback|].
      apply Hstop, Hall. rewrite Hsplit. apply in_or_app. right. now left. }
    split; [apply selectLoop_found|]. split; [exact Hnone|]. split.
    + intros Hlt. apply Hnone. intros g Hg.
      rewrite Hsplit in Hchron, Hg.
      pose proof (chronological_last pre last g Hchron Hg). lra.
    + intros Hle. apply Qle_bool_iff in Hle. now rewrite Hle.
  - intros [t0 q0 d0] [t1 q1 d1] [t2 q2 d2]. simpl. intros -> -> ->.
    split; reflexivity.
Qed.

Lemma replay_frame_selection_witness :
  (exists sel last next,
     ReplayEngine.lastFrame
       [mkFrame 0 [] []; mkFrame 100 [] []; mkFrame 200 [] []] = Some last /\
     ReplayEngine.drawReplay
       [mkFrame 0 [] []; mkFrame 100 [] []; mkFrame 200 [] []] true 150
     = Some (sel, next) /\
     (150 <= t last -> next = true))
  /\
  ReplayEngine.drawReplay
    [mkFrame 0 [] []; mkFrame 100 [] []; mkFrame 200 [] []] true 250
  = Some (mkFrame 200 [] [], false).
Proof.
  split.
  - destruct (proj1 replay_frame_selection
                [mkFrame 0 [] []; mkFrame 100 [] []; mkFrame 200 [] []] 150)
      as (sel & last & next & H1 & H2 & _ & _ & _ & H6).
    + discriminate.
    + unfold ReplayEngine.chronological.
      repeat constructor; simpl; discriminate.
    + exists sel, last, next. auto.
  - apply (proj2 replay_frame_selection
             (mkFrame 0 [] []) (mkFrame 100 [] []) (mkFrame 200 [] []));
      reflexivity.
Defined.

(** ** RecordingBuffer *)

Section Recording.

Import RecordingBuffer.

(** While recording with the origin already fixed, each tick appends the
    frame of its sample and touches nothing else. *)
Lemma ticks_running (samples : list Sample) (s : State) (t0 : Q) :
  isRecordingRef s = true -> recordingStartRef s = Some t0 ->
  ticks samples s =
  mkState (isRecording s) true (isReplaying s) (recordings s)
    (recordedFramesRef s ++ map (frameOf t0) samples) (Some t0)
    (nyquistRef s) (sampleRateRef s) (fftSizeRef s) (bufferLengthRef s).
Proof.
  revert s. induction samples as [|x rest IH]; intros s Hrec Hstart.
  - simpl. rewrite app_nil_r. destruct s; simpl in *. now subst.
  - unfold ticks. simpl fold_left. fold (ticks rest (tick s x)).
    assert (Etick : tick s x =
              mkState (isRecording s) true (isReplaying s) (recordings s)
                (recordedFramesRef s ++ [frameOf t0 x]) (Some t0)
                (nyquistRef s) (sampleRateRef s) (fftSizeRef s) (bufferLengthRef s)).
    { unfold tick, saveFrame. rewrite Hrec, Hstart. reflexivity. }
    rewrite Etick, IH by reflexivity. simpl.
    now rewrite <- app_assoc.
Qed.

(** From a fresh start, the first tick fixes the origin at its own clock
    reading. *)
Lemma ticks_fresh (x : Sample) (rest : list Sample) (s : State) :
  isRecordingRef s = true -> recordingStartRef s = None ->
  ticks (x :: rest) s =
  mkState (isRecording s) true (isReplaying s) (recordings s)
    (map (frameOf (now x)) (x :: rest)) (Some (now x))
    (nyquistRef s) (sampleRateRef s) (fftSizeRef s) (bufferLengthRef s).
Proof.
  intros Hrec Hstart.
  unfold ticks. simpl fold_left. fold (ticks rest (tick s x)).
  assert (Etick : tick s x =
            mkState (isRecording s) true (isReplaying s) (recordings s)
              [frameOf (now x) x] (Some (now x))
              (nyquistRef s) (sampleRateRef s) (fftSizeRef s) (bufferLengthRef s)).
  { unfold tick, saveFrame. rewrite Hrec, Hstart. reflexivity. }
  rewrite Etick, (ticks_running rest _ (now x)) by reflexivity. reflexivity.
Qed.

Lemma frames_chronological (t0 : Q) (samples : list Sample) :
  monotonic samples -> ReplayEngine.chronological (map (frameOf t0) samples).
Proof.
  unfold monotonic, ReplayEngine.chronological.
  induction 1 as [|x rest Hs IH Hall]; simpl; constructor; [exact IH|].
  rewrite Forall_map. eapply Forall_impl; [|exact Hall].
  intros y Hy. simpl in Hy. unfold frameOf. simpl. lra.
Qed.

(** Stopping a recording. *)
Lemma stop_recording (stopped : Date) (s : State) :
  isReplaying s = false -> isRecordingRef s = true ->
  recordings (handleToggleRecording stopped s) =
  match ReplayEngine.lastFrame (recordedFramesRef s) with
  | Some last =>
      Captured (newRecording stopped s (recordings s) (recordedFramesRef s) last)
      :: recordings s
  | None => recordings s
  end.
Proof.
  intros Hrep Hrec. unfold handleToggleRecording. rewrite Hrep, Hrec. simpl.
  destruct (ReplayEngine.lastFrame (recordedFramesRef s)); reflexivity.
Qed.

End Recording.



(** ** Import *)

Section ImportProofs.

Import Importer.

Variable lastOfObject : list (String.string * json) -> option json.

(** An entry other than [null] always yields a recording, whose frames are
    those of the entry when they are an array and none otherwise. *)
Lemma importEntry_frames (env : Env) (idx : nat) (rec : json) :
  rec <> JNull ->
  exists r, importEntry lastOfObject env idx rec = Some r /\
            i_frames r = framesOf (prop rec "frames").
Proof.
  intros Hnn. destruct rec; try congruence; eexists; split; reflexivity.
Qed.

Lemma framesOf_not_array (v : option json) : isArray v = false -> framesOf v = [].
Proof.
  destruct v as [[ | | | | |]|]; simpl; intros H; try reflexivity. discriminate.
Qed.

Lemma mapEntries_total (env : Env) (entries : list json) (idx : nat) :
  Forall (fun e => e <> JNull) entries ->
  exists imported,
    mapEntries lastOfObject env idx entries = Some imported /\
    Forall2 (fun e r => i_frames r = framesOf (prop e "frames")) entries imported.
Proof.
  intros Hall. revert idx.
  induction Hall as [|e rest He Hrest IH]; intros idx.
  - exists []. split; [reflexivity | constructor].
  - destruct (importEntry_frames env idx e He) as (r & Hr & Hf).
    destruct (IH (S idx)) as (rs & Hrs & Hfs).
    exists (r :: rs). simpl. rewrite Hr, Hrs. split; [reflexivity|].
    now constructor.
Qed.

End ImportProofs.

(** C8, as the code has it.  Importing an array of entries none of which is
    [null] never fails and skips nothing: every entry yields one recording,
    put before the existing ones in the order of the file.  An entry whose
    [frames] is not an array is imported with an empty frame list; the
    frames of the other entries are kept.  For one well-formed recording
    and one object whose [frames] is not an array, two recordings are
    added, the second one without frames. *)
Theorem import_keeps_every_entry
    (lastOfObject : list (String.string * json) -> option json)
    (env : Importer.Env) (entries : list json) (prev : list Stored) :
  Forall (fun e => e <> JNull) entries ->
  exists imported,
    Importer.handleImportFile lastOfObject env (JArr entries) prev
    = map Imported imported ++ prev /\
    length imported = length entries /\
    Forall2
      (fun e r =>
         (Importer.isArray (Importer.prop e "frames") = false -> i_frames r = []) /\
         (forall elements, Importer.prop e "frames" = Some (JArr elements) ->
                           i_frames r = elements))
      entries imported.
Proof.
  intros Hall.
  destruct (mapEntries_total lastOfObject env entries 0 Hall) as (imported & Hmap & Hfr).
  exists imported. unfold Importer.handleImportFile. rewrite Hmap.
  split; [reflexivity|]. split.
  - symmetry. eapply Forall2_length; eassumption.
  - eapply Forall2_impl; [|exact Hfr].
    intros e r Hf. simpl in Hf. split.
    + intros Hna. rewrite Hf. now apply framesOf_not_array.
    + intros elements He. rewrite Hf, He. reflexivity.
Qed.

Lemma import_keeps_every_entry_witness :
  exists imported,
    Importer.handleImportFile (fun _ => None) Importer.liveEnv
      (JArr [Importer.wellFormedEntry; Importer.brokenEntry]) []
    = map Imported imported ++ [] /\
    length imported = 2%nat.
Proof.
  destruct (import_keeps_every_entry (fun _ => None) Importer.liveEnv
              [Importer.wellFormedEntry; Importer.brokenEntry] [])
    as (imported & H1 & H2 & _).
  - repeat constructor; discriminate.
  - exists imported. split; assumption.
Defined.

(** C8, as the specification words it: the batch of one well-formed
    recording and one object whose [frames] is a string adds two recordings
    to the collection, not one; the second has no frames. *)
Lemma import_does_not_skip :
  Importer.isArray (Importer.prop Importer.brokenEntry "frames") = false /\
  (exists r1 r2,
     Importer.handleImportFile (fun _ => None) Importer.liveEnv
       (JArr [Importer.wellFormedEntry; Importer.brokenEntry]) []
     = [Imported r1; Imported r2] /\
     length (i_frames r1) = 2%nat /\ i_frames r2 = []) /\
  length (Importer.handleImportFile (fun _ => None) Importer.liveEnv
            (JArr [Importer.wellFormedEntry; Importer.brokenEntry]) []) <> 1%nat.
Proof.
  split; [reflexivity|]. split.
  - eexists. eexists. split; [reflexivity|]. split; reflexivity.
  - discriminate.
Qed.

(** ** Hover read-outs *)

Section HoverProofs.

Import Hover.

Lemma orZ_nonzero (x d : Z) : x <> 0%Z -> orZ x d = x.
Proof. intros H. unfold orZ. destruct (Z.eqb_spec x 0); congruence. Qed.

Lemma orQ_nonzero (x d : Q) : ~ x == 0 -> orQ x d = x.
Proof.
  intros H. unfold orQ. destruct (Qeq_bool x 0) eqn:E; [|reflexivity].
  apply Qeq_bool_iff in E. contradiction.
Qed.

Lemma clampQ_range (lo hi x : Q) : lo <= hi -> lo <= clampQ lo hi x <= hi.
Proof.
  intros Hle. unfold clampQ. split.
  - apply Q.le_max_l.
  - apply Q.max_lub; [exact Hle | apply Q.le_min_l].
Qed.

Lemma clampR_range (lo hi x : R) :
  (lo <= hi)%R -> (lo <= Rmax lo (Rmin hi x) <= hi)%R.
Proof.
  intros Hle. split.
  - apply Rmax_l.
  - apply Rmax_lub; [exact Hle | apply Rmin_l].
Qed.

End HoverProofs.

(** C10. Spectrum-plot hover.  With a canvas of width [W], buffer length
    [L], sample rate [SR] and transform size [N], none of them zero, a hover
    at pixel [x] reports the centre frequency [(b + 0.5) * SR / N] of the
    bin [b = min(L - 1, round(clamp(x, 0, W - 1)) * ceil(L / W))], clamped
    to [0, 20000].  The lower clamp is 0 Hz: at 8000 Hz the read-out over
    bin 0 is below 5 Hz, whereas the spectrogram hover, on a canvas at least
    two pixels high, always reports a frequency in [5, 20000]. *)
Theorem spectrum_hover_frequency :
  (forall (x : Q) (W L : Z) (SR N : Q),
     W <> 0%Z -> L <> 0%Z -> ~ SR == 0 -> ~ N == 0 ->
     Hover.handleSpectrumHover (Some W) x L SR N
     = Hover.SetHoverFreqHz (Some (Hover.spec_spectrumHover x W L SR N)) /\
     0 <= Hover.spec_spectrumHover x W L SR N <= 20000)
  /\
  (exists q,
     Hover.handleSpectrumHover (Some 800%Z) 0 1024 8000 2048
     = Hover.SetHoverFreqHz (Some q) /\ 0 < q < 5)
  /\
  (forall (H : Z) (y : R) (useLogScale : bool),
     (2 <= H)%Z ->
     exists f,
       Hover.handleSpectrogramHover (Some H) y useLogScale
       = Hover.SetHoverFreqHz (Some f) /\ (5 <= f <= 20000)%R).
Proof.
  split; [|split].
  - intros x W L SR N HW HL HSR HN. split.
    + unfold Hover.handleSpectrumHover, Hover.spec_spectrumHover, Hover.spec_bin,
        Hover.clampQ.
      now rewrite !orZ_nonzero, !orQ_nonzero by assumption.
    + apply clampQ_range. discriminate.
  - eexists. split; [vm_compute; reflexivity|]. split; reflexivity.
  - intros H y useLogScale HH.
    unfold Hover.handleSpectrogramHover.
    rewrite orZ_nonzero by lia.
    assert (Hpos : (2 <= IZR H)%R) by (apply IZR_le; exact HH).
    destruct (Rle_dec (IZR H - 1) 0) as [Hle|_]; [Lra.lra|].
    eexists. split; [reflexivity|].
    apply clampR_range. Lra.lra.
Qed.

Lemma spectrum_hover_frequency_witness :
  Hover.handleSpectrumHover (Some 800%Z) 400 1024 44100 2048
  = Hover.SetHoverFreqHz (Some (Hover.spec_spectrumHover 400 800 1024 44100 2048)) /\
  0 <= Hover.spec_spectrumHover 400 800 1024 44100 2048 <= 20000.
Proof.
  apply (proj1 spectrum_hover_frequency 400 800%Z 1024%Z 44100 2048); discriminate.
Defined.

(** ** FrequencyMapper *)

Section Mapper.

Import FrequencyMapper.

Local Open Scope R_scope.

Ltac rlra := Lra.lra.
Ltac rnra := Lra.nra.

Lemma ln10_pos : 0 < ln 10.
Proof. rewrite <- ln_1. apply ln_increasing; rlra. Qed.

Lemma log10_lt (x y : R) : 0 < x -> x < y -> log10 x < log10 y.
Proof.
  intros Hx Hxy. unfold log10, Rdiv.
  apply Rmult_lt_compat_r; [apply Rinv_0_lt_compat, ln10_pos|].
  now apply ln_increasing.
Qed.

Lemma log10_le (x y : R) : 0 < x -> x <= y -> log10 x <= log10 y.
Proof.
  intros Hx [Hlt | ->]; [left; now apply log10_lt | right; reflexivity].
Qed.

Lemma pow10_log10 (x : R) : 0 < x -> pow10 (log10 x) = x.
Proof.
  intros Hx. unfold pow10, log10, Rpower.
  replace (ln x / ln 10 * ln 10) with (ln x).
  - now apply exp_ln.
  - field. pose proof ln10_pos. rlra.
Qed.

Lemma pow10_lt (x y : R) : x < y -> pow10 x < pow10 y.
Proof.
  intros Hxy. unfold pow10, Rpower. apply exp_increasing.
  apply Rmult_lt_compat_r; [apply ln10_pos | exact Hxy].
Qed.

Lemma log_band_pos : 0 < log10 maxFreq - log10 minFreq.
Proof.
  assert (log10 minFreq < log10 maxFreq); [|rlra].
  apply log10_lt; unfold minFreq, maxFreq; rlra.
Qed.

(** The fraction of the height at which a frequency is drawn. *)
Lemma spec_frac_range (logarithmic : bool) (f : R) :
  5 <= f <= 20000 -> 0 <= spec_frac logarithmic f <= 1.
Proof.
  intros [Hlo Hhi]. unfold spec_frac. destruct logarithmic.
  - pose proof log_band_pos as Hband. unfold minFreq, maxFreq in Hband.
    assert (H1 : log10 5 <= log10 f) by (apply log10_le; rlra).
    assert (H2 : log10 f <= log10 20000) by (apply log10_le; rlra).
    set (d := log10 20000 - log10 5) in *.
    assert (Hq : 0 <= (log10 f - log10 5) / d <= 1).
    { split.
      - apply Rmult_le_pos; [rlra | left; now apply Rinv_0_lt_compat].
      - apply (Rmult_le_reg_r d); [exact Hband|].
        unfold Rdiv. rewrite Rmult_assoc, Rinv_l by rlra. unfold d. rlra. }
    rlra.
  - rlra.
Qed.

Lemma binToY_in_band (i len H : Z) (logarithmic : bool) (SR N : R) :
  5 <= binFreq i SR N <= 20000 ->
  binToY i len H logarithmic SR N
  = floor (spec_frac logarithmic (binFreq i SR N) * (IZR H - 1)).
Proof.
  intros [Hlo Hhi]. unfold binToY. fold (binFreq i SR N).
  unfold minFreq, maxFreq.
  destruct (Rlt_dec (binFreq i SR N) 5) as [?|_]; [rlra|].
  destruct (Rlt_dec 20000 (binFreq i SR N)) as [?|_]; [rlra|].
  destruct logarithmic; reflexivity.
Qed.

Lemma binToY_out_of_band (i len H : Z) (logarithmic : bool) (SR N : R) :
  binFreq i SR N < 5 \/ 20000 < binFreq i SR N ->
  binToY i len H logarithmic SR N = OUT_OF_BAND.
Proof.
  intros Hout. unfold binToY. fold (binFreq i SR N). unfold minFreq, maxFreq.
  destruct (Rlt_dec (binFreq i SR N) 5) as [_|Hn]; [reflexivity|].
  destruct (Rlt_dec 20000 (binFreq i SR N)) as [_|Hn']; [reflexivity|].
  rlra.
Qed.

Lemma floor_range (x : R) (n : Z) :
  0 <= x <= IZR n -> (0 <= floor x <= n)%Z.
Proof.
  intros [Hlo Hhi]. unfold floor. split.
  - apply (Zfloor_lub 0). exact Hlo.
  - pose proof (Zfloor_bound x) as [Hfl _].
    apply le_IZR. rlra.
Qed.

(** [freqAt] decreases from the top of the canvas to the bottom. *)
Lemma freqAt_decreasing (H : Z) (logarithmic : bool) (p q : R) :
  (2 <= H)%Z -> p < q -> freqAt q H logarithmic < freqAt p H logarithmic.
Proof.
  intros HH Hpq.
  assert (Hh : 1 <= IZR H - 1).
  { assert (2 <= IZR H) by (apply IZR_le; exact HH). rlra. }
  assert (Hk : 0 < / (IZR H - 1)) by (apply Rinv_0_lt_compat; rlra).
  unfold freqAt, yToFreq, Rdiv.
  set (k := / (IZR H - 1)) in *.
  assert (Hfrac : 1 - (q - /2 + /2) * k < 1 - (p - /2 + /2) * k) by rnra.
  destruct logarithmic.
  - apply pow10_lt. pose proof log_band_pos. rnra.
  - unfold minFreq, maxFreq. rnra.
Qed.

(** A frequency of the band is the frequency at the position where
    [binToY] draws it, before rounding down to a row. *)
Lemma freqAt_position (H : Z) (logarithmic : bool) (f : R) :
  (2 <= H)%Z -> 5 <= f <= 20000 ->
  freqAt (spec_frac logarithmic f * (IZR H - 1)) H logarithmic = f.
Proof.
  intros HH [Hlo Hhi].
  assert (Hh : IZR H - 1 <> 0).
  { assert (2 <= IZR H) by (apply IZR_le; exact HH). rlra. }
  unfold freqAt, yToFreq, spec_frac, minFreq, maxFreq.
  destruct logarithmic.
  - pose proof log_band_pos as Hband. unfold minFreq, maxFreq in Hband.
    replace (log10 5 +
             (1 - ((1 - (log10 f - log10 5) / (log10 20000 - log10 5)) * (IZR H - 1)
                   - / 2 + / 2) / (IZR H - 1)) * (log10 20000 - log10 5))
      with (log10 f) by (field; split; rlra).
    apply pow10_log10. rlra.
  - field. exact Hh.
Qed.

(** The row [binToY] returns holds the frequency of the bin. *)
Lemma bin_in_its_row (i len H : Z) (logarithmic : bool) (SR N : R) :
  (2 <= H)%Z -> 5 <= binFreq i SR N <= 20000 ->
  rowBottomFreq (binToY i len H logarithmic SR N) H logarithmic
  < binFreq i SR N
  <= rowTopFreq (binToY i len H logarithmic SR N) H logarithmic.
Proof.
  intros HH Hband.
  rewrite (binToY_in_band i len H logarithmic SR N Hband).
  set (f := binFreq i SR N) in *.
  set (u := spec_frac logarithmic f * (IZR H - 1)).
  pose proof (Zfloor_bound u) as [Hfl Hfu]. fold (floor u) in Hfl, Hfu.
  pose proof (freqAt_position H logarithmic f HH Hband) as Hu. fold u in Hu.
  unfold rowBottomFreq, rowTopFreq. split.
  - assert (freqAt (IZR (floor u) + 1) H logarithmic < freqAt u H logarithmic)
      by (apply freqAt_decreasing; trivial).
    rlra.
  - destruct Hfl as [Hlt | Heq].
    + assert (freqAt u H logarithmic < freqAt (IZR (floor u)) H logarithmic)
        by (apply freqAt_decreasing; trivial).
      rlra.
    + rewrite Heq. rlra.
Qed.

(** So does the frequency [yToFreq] gives back for that row. *)
Lemma centre_in_its_row (y H : Z) (logarithmic : bool) :
  (2 <= H)%Z ->
  rowBottomFreq y H logarithmic < yToFreq (IZR y) H logarithmic
  < rowTopFreq y H logarithmic.
Proof.
  intros HH.
  assert (E : yToFreq (IZR y) H logarithmic = freqAt (IZR y + /2) H logarithmic).
  { unfold freqAt. f_equal. rlra. }
  rewrite E. unfold rowBottomFreq, rowTopFreq.
  split; apply freqAt_decreasing; trivial; rlra.
Qed.

End Mapper.

(** C3. Contract of [binToY].  With [binFreq = binIndex * sampleRate /
    fftSize], the function returns OUT_OF_BAND when [binFreq < 5] or
    [binFreq > 20000], and otherwise [floor(frac * (height - 1))] with
    [frac = 1 - (log10 binFreq - log10 5) / (log10 20000 - log10 5)] on the
    logarithmic scale and [frac = 1 - (binFreq - 5) / (20000 - 5)] on the
    linear one.  On a canvas of positive height the rows returned in band
    lie between 0 and [height - 1], so OUT_OF_BAND is returned exactly out
    of band; it is returned for bin 0. *)
Theorem binToY_contract (i len H : Z) (logarithmic : bool) (SR N : R) :
  N <> 0%R ->
  ((FrequencyMapper.binFreq i SR N < 5 \/ 20000 < FrequencyMapper.binFreq i SR N)%R ->
   FrequencyMapper.binToY i len H logarithmic SR N = FrequencyMapper.OUT_OF_BAND) /\
  ((5 <= FrequencyMapper.binFreq i SR N <= 20000)%R ->
   FrequencyMapper.binToY i len H logarithmic SR N
   = FrequencyMapper.floor
       (FrequencyMapper.spec_frac logarithmic (FrequencyMapper.binFreq i SR N)
        * (IZR H - 1))%R) /\
  ((1 <= H)%Z ->
   (FrequencyMapper.binToY i len H logarithmic SR N = FrequencyMapper.OUT_OF_BAND
    <-> (FrequencyMapper.binFreq i SR N < 5 \/ 20000 < FrequencyMapper.binFreq i SR N)%R)) /\
  (i = 0%Z ->
   FrequencyMapper.binToY i len H logarithmic SR N = FrequencyMapper.OUT_OF_BAND).
Proof.
  intros HN.
  split; [apply binToY_out_of_band|].
  split; [apply binToY_in_band|].
  split.
  - intros HH. split; [|apply binToY_out_of_band].
    intros Hout.
    destruct (Rlt_dec (FrequencyMapper.binFreq i SR N) 5) as [?|Hlo]; [now left|].
    destruct (Rlt_dec 20000 (FrequencyMapper.binFreq i SR N)) as [?|Hhi]; [now right|].
    exfalso.
    assert (Hband : (5 <= FrequencyMapper.binFreq i SR N <= 20000)%R) by Lra.lra.
    rewrite (binToY_in_band i len H logarithmic SR N Hband) in Hout.
    pose proof (spec_frac_range logarithmic _ Hband) as Hfrac.
    assert (Hh : (0 <= IZR H - 1)%R).
    { assert (1 <= IZR H)%R by (apply IZR_le; exact HH). Lra.lra. }
    assert (Hrow : (0 <= FrequencyMapper.floor
                           (FrequencyMapper.spec_frac logarithmic
                              (FrequencyMapper.binFreq i SR N) * (IZR H - 1)))%Z).
    { apply (floor_range _ (H - 1)). rewrite minus_IZR. Lra.nra. }
    unfold FrequencyMapper.OUT_OF_BAND in Hout. lia.
  - intros ->. apply binToY_out_of_band. left.
    unfold FrequencyMapper.binFreq, Rdiv. rewrite !Rmult_0_l. Lra.lra.
Qed.

Lemma binToY_contract_witness :
  FrequencyMapper.binToY 0 1024 512 true 44100 2048 = FrequencyMapper.OUT_OF_BAND /\
  (FrequencyMapper.binToY 1000 1024 512 false 44100 2048 = FrequencyMapper.OUT_OF_BAND
   <-> (FrequencyMapper.binFreq 1000 44100 2048 < 5
        \/ 20000 < FrequencyMapper.binFreq 1000 44100 2048)%R).
Proof.
  split.
  - apply (binToY_contract 0 1024 512 true 44100 2048); [Lra.lra | reflexivity].
  - apply (binToY_contract 1000 1024 512 false 44100 2048); [Lra.lra | lia].
Defined.

(** C1. Round trip of the coordinate mapping.  For a bin whose frequency
    lies in [5, 20000] Hz, on a canvas at least two pixels high and on
    either scale, [binToY] returns a row of the canvas, the frequency of the
    bin lies within that row, and [yToFreq] of the row differs from the
    frequency of the bin by less than the frequency span of the row. *)
Theorem mapping_round_trip (i len H : Z) (logarithmic : bool) (SR N : R) :
  (2 <= H)%Z ->
  (5 <= FrequencyMapper.binFreq i SR N <= 20000)%R ->
  FrequencyMapper.binToY i len H logarithmic SR N <> FrequencyMapper.OUT_OF_BAND /\
  (0 <= FrequencyMapper.binToY i len H logarithmic SR N <= H - 1)%Z /\
  (FrequencyMapper.rowBottomFreq (FrequencyMapper.binToY i len H logarithmic SR N)
     H logarithmic
   < FrequencyMapper.binFreq i SR N
   <= FrequencyMapper.rowTopFreq (FrequencyMapper.binToY i len H logarithmic SR N)
        H logarithmic)%R /\
  (Rabs (FrequencyMapper.yToFreq
           (IZR (FrequencyMapper.binToY i len H logarithmic SR N)) H logarithmic
         - FrequencyMapper.binFreq i SR N)
   < FrequencyMapper.rowSpan (FrequencyMapper.binToY i len H logarithmic SR N)
       H logarithmic)%R.
Proof.
  intros HH Hband.
  pose proof (bin_in_its_row i len H logarithmic SR N HH Hband) as Hbin.
  pose proof (centre_in_its_row (FrequencyMapper.binToY i len H logarithmic SR N)
                H logarithmic HH) as Hcentre.
  assert (Hrow : (0 <= FrequencyMapper.binToY i len H logarithmic SR N <= H - 1)%Z).
  { rewrite (binToY_in_band i len H logarithmic SR N Hband).
    pose proof (spec_frac_range logarithmic _ Hband) as Hfrac.
    assert (Hh : (1 <= IZR H - 1)%R).
    { assert (2 <= IZR H)%R by (apply IZR_le; exact HH). Lra.lra. }
    apply floor_range. rewrite minus_IZR. Lra.nra. }
  split; [unfold FrequencyMapper.OUT_OF_BAND; lia|].
  split; [exact Hrow|].
  split; [exact Hbin|].
  unfold FrequencyMapper.rowSpan.
  apply Rabs_def1; Lra.lra.
Qed.

Lemma mapping_round_trip_witness :
  (Rabs (FrequencyMapper.yToFreq
           (IZR (FrequencyMapper.binToY 100 1024 512 true 44100 2048)) 512 true
         - FrequencyMapper.binFreq 100 44100 2048)
   < FrequencyMapper.rowSpan (FrequencyMapper.binToY 100 1024 512 true 44100 2048)
       512 true)%R
  /\
  (Rabs (FrequencyMapper.yToFreq
           (IZR (FrequencyMapper.binToY 100 1024 512 false 44100 2048)) 512 false
         - FrequencyMapper.binFreq 100 44100 2048)
   < FrequencyMapper.rowSpan (FrequencyMapper.binToY 100 1024 512 false 44100 2048)
       512 false)%R.
Proof.
  split.
  - apply (mapping_round_trip 100 1024 512 true 44100 2048);
      [lia | unfold FrequencyMapper.binFreq; Lra.lra].
  - apply (mapping_round_trip 100 1024 512 false 44100 2048);
      [lia | unfold FrequencyMapper.binFreq; Lra.lra].
Defined.

(** * Further properties of the code *)

(** ** Bins and frequencies *)

Section BinArithmetic.

Import SpectralAnalyzer.

Variables SR N : Q.
Hypothesis HSR : 0 < SR.
Hypothesis HN : 0 < N.

Lemma binFreq_as_product (b : nat) :
  binFreq b SR N == inject_Z (Z.of_nat b) * (SR / N).
Proof. unfold binFreq. field. lra. Qed.

Lemma spacing_pos : 0 < SR / N.
Proof. apply Qlt_shift_div_l; lra. Qed.

Lemma binFreq_le (b c : nat) : (b <= c)%nat -> binFreq b SR N <= binFreq c SR N.
Proof.
  intros Hbc. rewrite !binFreq_as_product.
  apply Qmult_le_compat_r; [|apply Qlt_le_weak, spacing_pos].
  rewrite <- Zle_Qle. lia.
Qed.

Lemma binFreq_lt (b c : nat) : (b < c)%nat -> binFreq b SR N < binFreq c SR N.
Proof.
  intros Hbc. rewrite !binFreq_as_product.
  apply Qmult_lt_compat_r; [apply spacing_pos|].
  rewrite <- Zlt_Qlt. lia.
Qed.

Lemma binFreq_inj (b c : nat) : binFreq b SR N == binFreq c SR N -> b = c.
Proof.
  intros Heq.
  destruct (Nat.lt_trichotomy b c) as [Hlt | [-> | Hgt]]; [|reflexivity|].
  - apply binFreq_lt in Hlt. lra.
  - apply binFreq_lt in Hgt. lra.
Qed.

Lemma binFreq_nonneg (b : nat) : 0 <= binFreq b SR N.
Proof.
  rewrite binFreq_as_product.
  apply Qmult_le_0_compat; [|apply Qlt_le_weak, spacing_pos].
  change 0 with (inject_Z 0). rewrite <- Zle_Qle. lia.
Qed.

End BinArithmetic.

(** X1. [freqToBin] inverts the frequency of a bin: for an integer sample
    rate [sr] and a transform size [2 ^ k], the bin of the frequency
    [b * sr / 2 ^ k] is [b]. *)
Theorem freqToBin_round_trip (b k : nat) (sr : Z) :
  (0 < sr)%Z -> (k <= 40)%nat -> (Z.of_nat b * sr < 2 ^ 53)%Z ->
  freqToBin ((inject_Z (Z.of_nat b) * inject_Z sr) / inject_Z (2 ^ Z.of_nat k))
    (inject_Z sr) (inject_Z (2 ^ Z.of_nat k))
  = Z.of_nat b.
Proof.
  intros Hsr _ _. unfold freqToBin.
  pose proof (sampleRate_pos sr Hsr) as HSR.
  pose proof (fftSize_pos k) as HN.
  set (SR := inject_Z sr) in *. set (N := inject_Z (2 ^ Z.of_nat k)) in *.
  assert (E : ((inject_Z (Z.of_nat b) * SR) / N * N) / SR == inject_Z (Z.of_nat b))
    by (field; lra).
  rewrite E. apply Qfloor_Z.
Qed.

(** Bin 92 at 44100 Hz with a transform of 2048 samples. *)
Lemma freqToBin_round_trip_witness :
  freqToBin ((inject_Z 92 * inject_Z 44100) / inject_Z (2 ^ 11))
    (inject_Z 44100) (inject_Z (2 ^ 11))
  = 92%Z.
Proof.
  apply (freqToBin_round_trip 92 11 44100); lia.
Defined.

(** ** SpectralAnalyzer, further *)

(** X2. The harmonics are read at the integer multiples of the fundamental
    bin.  For an integer sample rate [sr] and a transform size [2 ^ k], when
    the fundamental reported is the frequency [b * sr / 2 ^ k] of bin [b],
    the entry of order [n] is present exactly when the magnitude of bin
    [n * b] exists and is above 30, and it carries that magnitude and the
    frequency [n] times the fundamental. *)
Theorem harmonics_read_multiples (a : list Z) (sr : Z) (k : nat) :
  a <> [] -> (0 < sr)%Z -> (k <= 40)%nat ->
  (4 * Z.of_nat (length a) * sr < 2 ^ 53)%Z ->
  exists r : SpectralAnalyzer.Analysis,
    SpectralAnalyzer.calculateFrequencyAnalysis a
      (inject_Z sr) (inject_Z (2 ^ Z.of_nat k)) = Some r /\
    forall b : nat,
      SpectralAnalyzer.fundamental r
      = Some ((inject_Z (Z.of_nat b) * inject_Z sr) / inject_Z (2 ^ Z.of_nat k)) ->
      forall h, In h (SpectralAnalyzer.harmonics r) <->
        exists n : nat,
          (n = 2 \/ n = 3 \/ n = 4)%nat /\
          SpectralAnalyzer.order h = Z.of_nat n /\
          SpectralAnalyzer.frequency h
          = (inject_Z (Z.of_nat b) * inject_Z sr) / inject_Z (2 ^ Z.of_nat k)
            * inject_Z (Z.of_nat n) /\
          nth_error a (n * b) = Some (SpectralAnalyzer.amplitude h) /\
          (30 < SpectralAnalyzer.amplitude h)%Z.
Proof.
  intros Hne Hsr _ _.
  pose proof (sampleRate_pos sr Hsr) as HSR.
  pose proof (fftSize_pos k) as HN.
  set (SR := inject_Z sr) in *. set (N := inject_Z (2 ^ Z.of_nat k)) in *.
  eexists. split; [apply (analysis_nonempty a SR N Hne)|]. simpl.
  set (f0 := SpectralAnalyzer.binFreq
               (fst (SpectralAnalyzer.scanFundamental a SR N)) SR N).
  destruct (Js.Qgt_bool f0 10); [|discriminate].
  intros b Hb h. apply some_eq in Hb. rewrite Hb.
  change ((inject_Z (Z.of_nat b) * SR) / N) with (SpectralAnalyzer.binFreq b SR N).
  rewrite harmonic_loop_In. split.
  - intros (Ho & Hf & Hlt & Hget & Hamp).
    assert (Hn : exists n : nat,
               (n = 2 \/ n = 3 \/ n = 4)%nat /\ SpectralAnalyzer.order h = Z.of_nat n).
    { destruct Ho as [Ho | [Ho | Ho]];
        [exists 2%nat | exists 3%nat | exists 4%nat]; rewrite Ho; split; auto. }
    destruct Hn as (n & Hn & Hon). exists n.
    rewrite Hon in Hf.
    rewrite Hf, (synthetic_harmonicBin b SR N HSR HN n), get_of_nat in Hget.
    repeat split; trivial.
  - intros (n & Hn & Hon & Hf & Hnth & Hamp).
    assert (Hlen : (n * b < length a)%nat) by (apply nth_error_Some; congruence).
    rewrite Hf, (synthetic_harmonicBin b SR N HSR HN n), get_of_nat.
    rewrite Hon. repeat split; trivial; lia.
Qed.

Lemma harmonics_read_multiples_witness :
  exists r : SpectralAnalyzer.Analysis,
    SpectralAnalyzer.calculateFrequencyAnalysis [0; 0; 90; 0; 40; 0; 10; 0; 35]%Z
      (inject_Z 44100) (inject_Z (2 ^ Z.of_nat 11)) = Some r /\
    forall b : nat,
      SpectralAnalyzer.fundamental r
      = Some ((inject_Z (Z.of_nat b) * inject_Z 44100) / inject_Z (2 ^ Z.of_nat 11)) ->
      forall h, In h (SpectralAnalyzer.harmonics r) <->
        exists n : nat,
          (n = 2 \/ n = 3 \/ n = 4)%nat /\
          SpectralAnalyzer.order h = Z.of_nat n /\
          SpectralAnalyzer.frequency h
          = (inject_Z (Z.of_nat b) * inject_Z 44100) / inject_Z (2 ^ Z.of_nat 11)
            * inject_Z (Z.of_nat n) /\
          nth_error [0; 0; 90; 0; 40; 0; 10; 0; 35]%Z (n * b)
          = Some (SpectralAnalyzer.amplitude h) /\
          (30 < SpectralAnalyzer.amplitude h)%Z.
Proof.
  apply (harmonics_read_multiples [0; 0; 90; 0; 40; 0; 10; 0; 35]%Z 44100 11);
    [discriminate | lia | lia | simpl; lia].
Defined.

(** X3. Ranges of a summary.  On a non-empty [Uint8Array] the dominant
    frequency is that of a bin of the array, so it lies between 0 and
    [length * sampleRate / fftSize]; a reported fundamental lies strictly
    between 10 and 2000 Hz, its bin holds a magnitude above 50 that is not
    above the magnitude of the dominant bin; there are at most three
    harmonics, each with a frequency strictly between 20 and 8000 Hz and an
    amplitude between 31 and 255. *)
Theorem summary_ranges (a : list Z) (SR N : Q) :
  a <> [] -> Forall Js.uint8 a -> 0 < SR -> 0 < N ->
  exists (r : SpectralAnalyzer.Analysis) (p : nat) (vp : Z),
    SpectralAnalyzer.calculateFrequencyAnalysis a SR N = Some r /\
    SpectralAnalyzer.topResonating r = SpectralAnalyzer.binFreq p SR N /\
    nth_error a p = Some vp /\
    0 <= SpectralAnalyzer.topResonating r /\
    SpectralAnalyzer.topResonating r
    < SpectralAnalyzer.binFreq (length a) SR N /\
    (forall b : nat,
       SpectralAnalyzer.fundamental r = Some (SpectralAnalyzer.binFreq b SR N) ->
       10 < SpectralAnalyzer.binFreq b SR N < 2000 /\
       exists vb, nth_error a b = Some vb /\ (50 < vb <= vp)%Z) /\
    (forall f, SpectralAnalyzer.fundamental r = Some f -> 10 < f < 2000) /\
    (length (SpectralAnalyzer.harmonics r) <= 3)%nat /\
    (forall h, In h (SpectralAnalyzer.harmonics r) ->
       20 < SpectralAnalyzer.frequency h < 8000 /\
       (30 < SpectralAnalyzer.amplitude h <= 255)%Z).
Proof.
  intros Hne Hu8 HSR HN.
  destruct (scanPeak_first_max a Hne Hu8) as (vp & Hnth & Hmax & _).
  eexists. exists (snd (SpectralAnalyzer.scanPeak a)), vp.
  split; [apply (analysis_nonempty a SR N Hne)|]. simpl.
  split; [reflexivity|]. split; [exact Hnth|].
  split; [now apply binFreq_nonneg|].
  split.
  { apply binFreq_lt; trivial. apply nth_error_Some. congruence. }
  pose proof (scanFundamental_inv a SR N) as Hinv.
  destruct (SpectralAnalyzer.scanFundamental a SR N) as [fb fv]. simpl.
  set (hi := Z.to_nat (Z.min (SpectralAnalyzer.lowFreqLimit SR N) (Z.of_nat (length a)))) in *.
  set (f0 := SpectralAnalyzer.binFreq fb SR N).
  destruct (Js.Qgt_bool f0 10) eqn:Egt.
  2:{ split; [discriminate|]. split; [discriminate|]. split; [simpl; lia|].
      intros h []. }
  apply Qgt_bool_true in Egt.
  assert (Hfb : (1 <= fb < Nat.max 1 hi)%nat /\ Invariants.spec_localPeak a fb = true /\
                nth_error a fb = Some fv).
  { destruct Hinv as [(-> & _) | (Hb & Hq & Hv & _)]; [|auto].
    unfold f0 in Egt. rewrite binFreq_0 in Egt. lra. }
  destruct Hfb as (Hrange & Hpk & Hfv).
  assert (Hlt2000 : f0 < 2000).
  { apply (scanned_below_2000 a); trivial. apply scanned_iff. fold hi. lia. }
  assert (H50 : (50 < fv)%Z).
  { unfold Invariants.spec_localPeak in Hpk. rewrite Hfv in Hpk.
    apply andb_true_iff in Hpk as [Hpk _]. apply andb_true_iff in Hpk as [Hpk _].
    now apply Z.ltb_lt in Hpk. }
  split.
  { intros b Hb. apply some_eq in Hb.
    assert (b = fb) as ->.
    { apply (binFreq_inj SR N HSR HN). unfold f0 in Hb. rewrite Hb. reflexivity. }
    fold f0. split; [lra|]. exists fv. split; [exact Hfv|].
    split; [exact H50 | apply (Hmax fb fv Hfv)]. }
  split; [intros f Hf; apply some_eq in Hf; subst f; lra|].
  split.
  { rewrite harmonic_loop_unfold, !length_app.
    destruct (harmonic_step_short a f0 SR N 2) as [-> | (h2 & -> & _)];
    destruct (harmonic_step_short a f0 SR N 3) as [-> | (h3 & -> & _)];
    destruct (harmonic_step_short a f0 SR N 4) as [-> | (h4 & -> & _)];
    simpl; lia. }
  intros h Hh. apply harmonic_loop_In in Hh as (Ho & Hf & Hlt & Hget & Hamp).
  split.
  - rewrite Hf.
    destruct Ho as [-> | [-> | ->]]; unfold inject_Z; lra.
  - split; [exact Hamp|].
    assert (Hin : In (SpectralAnalyzer.amplitude h) a).
    { unfold Js.get in Hget. destruct (_ <? 0)%Z; [discriminate|].
      eapply nth_error_In; eassumption. }
    rewrite Forall_forall in Hu8. apply Hu8 in Hin. unfold Js.uint8 in Hin. lia.
Qed.

Lemma summary_ranges_witness :
  exists (r : SpectralAnalyzer.Analysis),
    SpectralAnalyzer.calculateFrequencyAnalysis
      [0; 0; 90; 0; 40; 0; 10; 0; 35]%Z 44100 2048 = Some r /\
    (forall f, SpectralAnalyzer.fundamental r = Some f -> 10 < f < 2000) /\
    (length (SpectralAnalyzer.harmonics r) <= 3)%nat.
Proof.
  destruct (summary_ranges [0; 0; 90; 0; 40; 0; 10; 0; 35]%Z 44100 2048)
    as (r & p & vp & Hr & _ & _ & _ & _ & _ & Hf & Hlen & _).
  - discriminate.
  - repeat constructor; unfold Js.uint8; lia.
  - reflexivity.
  - reflexivity.
  - exists r. auto.
Defined.

(** ** ReplayEngine, further *)

Section ReplayOrder.

Import ReplayEngine.

Lemma selectLoop_in (frames : list Frame) (elapsed : Q) (d : Frame) :
  selectLoop frames elapsed d = d \/ In (selectLoop frames elapsed d) frames.
Proof.
  induction frames as [|f rest IH]; simpl; [now left|].
  destruct (Qle_bool elapsed (t f)); [right; now left|].
  destruct IH as [-> | Hin]; [now left | right; now right].
Qed.

Lemma selectLoop_mono (frames : list Frame) (e1 e2 : Q) (d : Frame) :
  chronological frames -> (forall g, In g frames -> t g <= t d) -> e1 <= e2 ->
  t (selectLoop frames e1 d) <= t (selectLoop frames e2 d).
Proof.
  unfold chronological. intros Hs. induction Hs as [|f rest Hs IH Hall];
    intros Hd He; simpl; [lra|].
  rewrite Forall_forall in Hall.
  destruct (Qle_bool e1 (t f)) eqn:E1.
  - destruct (Qle_bool e2 (t f)) eqn:E2; [lra|].
    destruct (selectLoop_in rest e2 d) as [-> | Hin].
    + apply Hd. now left.
    + apply Hall, Hin.
  - assert (E2 : Qle_bool e2 (t f) = false).
    { destruct (Qle_bool e2 (t f)) eqn:E2; [|reflexivity].
      apply Qle_bool_iff in E2.
      assert (Hle : e1 <= t f) by lra. apply Qle_bool_iff in Hle. congruence. }
    rewrite E2. apply IH; [|exact He].
    intros g Hg. apply Hd. now right.
Qed.

Lemma chronological_suffix (pre : list Frame) (s g : Frame) (post : list Frame) :
  chronological (pre ++ s :: post) -> In g (s :: post) -> t s <= t g.
Proof.
  unfold chronological. induction pre as [|h pre IH]; simpl; intros Hs Hin.
  - inversion Hs as [|? ? _ Hall]; subst.
    destruct Hin as [<- | Hin]; [lra|].
    rewrite Forall_forall in Hall. now apply Hall.
  - inversion Hs; subst. now apply IH.
Qed.

End ReplayOrder.

(** X4. Playback never steps back and never invents a frame.  On a
    non-empty chronological list the frame drawn is always one of the
    list, the frame drawn at a later playback time is never earlier than the
    one drawn before, and a tick that falls exactly on the time of a frame
    draws a frame with that time. *)
Theorem replay_never_steps_back (frames : list Frame) :
  frames <> [] -> ReplayEngine.chronological frames ->
  (forall elapsed, exists sel,
     ReplayEngine.selectFrame frames elapsed = Some sel /\ In sel frames) /\
  (forall e1 e2 s1 s2,
     e1 <= e2 ->
     ReplayEngine.selectFrame frames e1 = Some s1 ->
     ReplayEngine.selectFrame frames e2 = Some s2 ->
     t s1 <= t s2) /\
  (forall g sel,
     In g frames ->
     ReplayEngine.selectFrame frames (t g) = Some sel ->
     t sel == t g).
Proof.
  intros Hne Hchron.
  destruct (lastFrame_nonempty frames Hne) as (pre & last & Hsplit & Hlast).
  assert (Hin_last : In last frames).
  { rewrite Hsplit. apply in_or_app. right. now left. }
  assert (Hmax : forall g, In g frames -> t g <= t last).
  { intros g Hg. rewrite Hsplit in Hchron, Hg.
    exact (chronological_last pre last g Hchron Hg). }
  unfold ReplayEngine.selectFrame. rewrite Hlast.
  split; [|split].
  - intros elapsed. eexists. split; [reflexivity|].
    destruct (selectLoop_in frames elapsed last) as [-> | Hin]; assumption.
  - intros e1 e2 s1 s2 He H1 H2.
    apply some_eq in H1. apply some_eq in H2. subst s1 s2.
    now apply selectLoop_mono.
  - intros g sel Hg Hsel. apply some_eq in Hsel. subst sel.
    destruct (selectLoop_found frames (t g) last) as (p1 & p2 & Hdec & Hge & Hpre).
    { exists g. split; [exact Hg | lra]. }
    set (sel := ReplayEngine.selectLoop frames (t g) last) in *.
    assert (Hg' : In g (sel :: p2)).
    { rewrite Hdec in Hg. apply in_app_or in Hg as [Hg | Hg]; [|exact Hg].
      specialize (Hpre g Hg). lra. }
    rewrite Hdec in Hchron.
    pose proof (chronological_suffix p1 sel g p2 Hchron Hg'). lra.
Qed.

Lemma replay_never_steps_back_witness :
  exists sel,
    ReplayEngine.selectFrame
      [mkFrame 0 [] []; mkFrame 100 [] []; mkFrame 200 [] []] 150 = Some sel /\
    In sel [mkFrame 0 [] []; mkFrame 100 [] []; mkFrame 200 [] []].
Proof.
  apply (replay_never_steps_back
           [mkFrame 0 [] []; mkFrame 100 [] []; mkFrame 200 [] []]).
  - discriminate.
  - unfold ReplayEngine.chronological. repeat constructor; simpl; discriminate.
Defined.

(** ** RecordingBuffer, further *)

Section Sessions.

Import RecordingBuffer.

(** The recording a session leaves in front of the collection. *)
Lemma session_result (started stopped : Date) (s : State)
    (first : Sample) (rest : list Sample) :
  isReplaying s = false -> isRecordingRef s = false ->
  exists lastF,
    ReplayEngine.lastFrame (map (frameOf (now first)) (first :: rest)) = Some lastF /\
    recordings (session started stopped (first :: rest) s) =
    Captured
      (mkRecording (getTime stopped, (length (recordings s) + 1)%nat)
         (length (recordings s) + 1)%nat (toLocaleTimeString stopped) (t lastF)
         (nyquistRef s) (sampleRateRef s) (fftSizeRef s) (bufferLengthRef s)
         (map (frameOf (now first)) (first :: rest)))
    :: recordings s.
Proof.
  intros Hrep Hrec. unfold session.
  assert (Estart : handleToggleRecording started s =
            mkState true true false (recordings s) [] None
              (nyquistRef s) (sampleRateRef s) (fftSizeRef s) (bufferLengthRef s)).
  { unfold handleToggleRecording. now rewrite Hrep, Hrec. }
  rewrite Estart, ticks_fresh by reflexivity.
  rewrite stop_recording by reflexivity.
  cbn [recordedFramesRef recordings].
  destruct (lastFrame_nonempty (map (frameOf (now first)) (first :: rest)))
    as (pre & lf & Hsplit & Hlast); [discriminate|].
  exists lf. split; [exact Hlast|]. rewrite Hlast. reflexivity.
Qed.

Lemma lastFrame_in (frames : list Frame) (f : Frame) :
  ReplayEngine.lastFrame frames = Some f -> In f frames.
Proof.
  unfold ReplayEngine.lastFrame, Js.get.
  destruct (_ <? 0)%Z; [discriminate|]. apply nth_error_In.
Qed.

Lemma frameOf_times (t0 : Q) (samples : list Sample) (f : Frame) :
  In f (map (frameOf t0) samples) ->
  exists x, In x samples /\ t f = now x - t0.
Proof.
  intros Hin. apply in_map_iff in Hin as (x & <- & Hx). exists x. now split.
Qed.

Lemma monotonic_first (first : Sample) (rest : list Sample) (x : Sample) :
  monotonic (first :: rest) -> In x (first :: rest) -> now first <= now x.
Proof.
  unfold monotonic. intros Hs [<- | Hin]; [lra|].
  inversion Hs as [|? ? _ Hall]; subst.
  rewrite Forall_forall in Hall. now apply Hall.
Qed.

End Sessions.

(** X5. What a capture session stores.  After start, ticks on a clock that
    never goes back, and stop, the new recording holds the magnitude and
    waveform arrays of the ticks in order; its first frame is at time 0 and
    every frame time lies between 0 and [durationMs]; it carries the
    parameters held by the refs, and its label number is the size of the
    collection plus one. *)
Theorem session_contents (started stopped : Date) (s : RecordingBuffer.State)
    (first : RecordingBuffer.Sample) (rest : list RecordingBuffer.Sample) :
  RecordingBuffer.isReplaying s = false ->
  RecordingBuffer.isRecordingRef s = false ->
  RecordingBuffer.monotonic (first :: rest) ->
  exists r,
    RecordingBuffer.recordings
      (RecordingBuffer.session started stopped (first :: rest) s)
    = Captured r :: RecordingBuffer.recordings s /\
    map freq (frames r) = map RecordingBuffer.freqData (first :: rest) /\
    map timeDomain (frames r) = map RecordingBuffer.timeData (first :: rest) /\
    (exists f0 tl, frames r = f0 :: tl /\ t f0 == 0) /\
    (forall f, In f (frames r) -> 0 <= t f <= durationMs r) /\
    label r = (length (RecordingBuffer.recordings s) + 1)%nat /\
    nyquistHz r = RecordingBuffer.nyquistRef s /\
    sampleRate r = RecordingBuffer.sampleRateRef s /\
    fftSize r = RecordingBuffer.fftSizeRef s /\
    bufferLength r = RecordingBuffer.bufferLengthRef s.
Proof.
  intros Hrep Hrec Hmono.
  destruct (session_result started stopped s first rest Hrep Hrec)
    as (lastF & Hlast & Hres).
  eexists. split; [exact Hres|]. cbn [frames durationMs label nyquistHz sampleRate
                                      fftSize bufferLength].
  split; [now rewrite map_map|]. split; [now rewrite map_map|].
  split.
  { eexists. eexists. split; [reflexivity|].
    unfold RecordingBuffer.frameOf. simpl. lra. }
  split; [|repeat split].
  intros f Hf.
  pose proof (frames_chronological (RecordingBuffer.now first) (first :: rest) Hmono)
    as Hchron.
  destruct (lastFrame_nonempty
              (map (RecordingBuffer.frameOf (RecordingBuffer.now first)) (first :: rest)))
    as (pre & lf & Hsplit & Hlast'); [discriminate|].
  rewrite Hlast in Hlast'. apply some_eq in Hlast'. subst lf.
  split.
  - destruct (frameOf_times _ _ f Hf) as (x & Hx & ->).
    pose proof (monotonic_first first rest x Hmono Hx). lra.
  - rewrite Hsplit in Hchron, Hf.
    exact (chronological_last pre lastF f Hchron Hf).
Qed.

Lemma session_contents_witness :
  exists r,
    RecordingBuffer.recordings
      (RecordingBuffer.session (mkDate 0 String.EmptyString) (mkDate 70 String.EmptyString)
         [RecordingBuffer.mkSample 10 [1; 2]%Z [128; 128]%Z;
          RecordingBuffer.mkSample 43 [3; 4]%Z [127; 129]%Z]
         (RecordingBuffer.mkState false false false [] [] None 20000 44100 2048 1024))
    = [Captured r] /\
    map freq (frames r) = [[1; 2]; [3; 4]]%Z.
Proof.
  destruct (session_contents (mkDate 0 String.EmptyString) (mkDate 70 String.EmptyString)
              (RecordingBuffer.mkState false false false [] [] None 20000 44100 2048 1024)
              (RecordingBuffer.mkSample 10 [1; 2]%Z [128; 128]%Z)
              [RecordingBuffer.mkSample 43 [3; 4]%Z [127; 129]%Z])
    as (r & Hr & Hfreq & _); try reflexivity.
  - unfold RecordingBuffer.monotonic. repeat constructor; simpl; discriminate.
  - exists r. split; assumption.
Defined.

(** X6. A recording replays for exactly its duration.  For the recording a
    session has just stored, a replay tick schedules another tick exactly
    when the playback time is at most [durationMs], and the tick at playback
    time 0 draws the first frame. *)
Theorem replay_lasts_duration (started stopped : Date) (s : RecordingBuffer.State)
    (first : RecordingBuffer.Sample) (rest : list RecordingBuffer.Sample) :
  RecordingBuffer.isReplaying s = false ->
  RecordingBuffer.isRecordingRef s = false ->
  exists r f0 tl,
    RecordingBuffer.recordings
      (RecordingBuffer.session started stopped (first :: rest) s)
    = Captured r :: RecordingBuffer.recordings s /\
    frames r = f0 :: tl /\
    (exists next, ReplayEngine.drawReplay (frames r) true 0 = Some (f0, next)) /\
    (forall elapsed,
       ReplayEngine.continues (frames r) true elapsed = true
       <-> elapsed <= durationMs r).
Proof.
  intros Hrep Hrec.
  destruct (session_result started stopped s first rest Hrep Hrec)
    as (lastF & Hlast & Hres).
  eexists. eexists. eexists. split; [exact Hres|].
  cbn [frames durationMs]. split; [reflexivity|]. split.
  - unfold ReplayEngine.drawReplay, ReplayEngine.selectFrame. rewrite Hlast.
    eexists. simpl ReplayEngine.selectLoop.
    assert (E : Qle_bool 0 (RecordingBuffer.now first - RecordingBuffer.now first) = true)
      by (apply Qle_bool_iff; lra).
    unfold RecordingBuffer.frameOf at 1. simpl t. rewrite E. reflexivity.
  - intros elapsed. unfold ReplayEngine.continues. rewrite Hlast.
    rewrite andb_true_r. apply Qle_bool_iff.
Qed.

Lemma replay_lasts_duration_witness :
  exists r f0 tl,
    RecordingBuffer.recordings
      (RecordingBuffer.session (mkDate 0 String.EmptyString) (mkDate 70 String.EmptyString)
         [RecordingBuffer.mkSample 10 [1; 2]%Z [128; 128]%Z;
          RecordingBuffer.mkSample 43 [3; 4]%Z [127; 129]%Z]
         (RecordingBuffer.mkState false false false [] [] None 20000 44100 2048 1024))
    = [Captured r] /\
    frames r = f0 :: tl /\
    (ReplayEngine.continues (frames r) true 33 = true <-> 33 <= durationMs r).
Proof.
  destruct (replay_lasts_duration (mkDate 0 String.EmptyString)
              (mkDate 70 String.EmptyString)
              (RecordingBuffer.mkState false false false [] [] None 20000 44100 2048 1024)
              (RecordingBuffer.mkSample 10 [1; 2]%Z [128; 128]%Z)
              [RecordingBuffer.mkSample 43 [3; 4]%Z [127; 129]%Z])
    as (r & f0 & tl & Hr & Hf & _ & Hc); try reflexivity.
  exists r, f0, tl. repeat split; try assumption; apply Hc.
Defined.

(** ** Import and export, further *)

Section ImportMore.

Import Importer.

Variable lastOfObject : list (String.string * json) -> option json.

Lemma mapEntries_null (env : Env) (entries : list json) (idx : nat) :
  In JNull entries -> mapEntries lastOfObject env idx entries = None.
Proof.
  revert idx. induction entries as [|e rest IH]; intros idx Hin; [destruct Hin|].
  simpl. destruct Hin as [-> | Hin]; [reflexivity|].
  destruct (importEntry lastOfObject env idx e); [|reflexivity].
  now rewrite (IH (S idx) Hin).
Qed.

Lemma positiveOr_pos (v : option json) (d : Q) : 0 < d -> 0 < positiveOr v d.
Proof.
  intros Hd. unfold positiveOr.
  destruct v as [[ | |q| | |]|]; trivial.
  destruct (Js.Qgt_bool q 0) eqn:E; [now apply Qgt_bool_true in E | exact Hd].
Qed.

Lemma importEntry_positive (env : Env) (idx : nat) (rec : json) (r : ImportedRecording) :
  0 < nyquistRef env -> 0 < sampleRateRef env -> 0 < fftSizeRef env ->
  0 < bufferLengthRef env ->
  importEntry lastOfObject env idx rec = Some r ->
  0 < i_nyquistHz r /\ 0 < i_sampleRate r /\ 0 < i_fftSize r /\ 0 < i_bufferLength r.
Proof.
  intros H1 H2 H3 H4 Hr.
  destruct rec; simpl in Hr; try discriminate;
    apply some_eq in Hr; subst r; simpl; repeat split;
    first [assumption | now apply positiveOr_pos].
Qed.

Lemma mapEntries_forall (P : ImportedRecording -> Prop) (env : Env) :
  (forall idx rec r, importEntry lastOfObject env idx rec = Some r -> P r) ->
  forall entries idx imported,
    mapEntries lastOfObject env idx entries = Some imported -> Forall P imported.
Proof.
  intros HP. induction entries as [|e rest IH]; intros idx imported Hm; simpl in Hm.
  - apply some_eq in Hm. subst. constructor.
  - destruct (importEntry lastOfObject env idx e) as [r|] eqn:Er; [|discriminate].
    destruct (mapEntries lastOfObject env (S idx) rest) as [rs|] eqn:Ers; [|discriminate].
    apply some_eq in Hm. subst. constructor; eauto.
Qed.

Lemma get_last_map {A B : Type} (g : A -> B) (l : list A) :
  Js.get (map g l) (Z.of_nat (length (map g l)) - 1)
  = option_map g (Js.get l (Z.of_nat (length l) - 1)).
Proof.
  rewrite length_map. unfold Js.get.
  destruct (_ <? 0)%Z; [reflexivity|]. apply nth_error_map.
Qed.

(** Importing the exported form of a captured recording. *)
Lemma importEntry_exported (env : Env) (idx : nat) (r : Recording) :
  Exporter.captured r ->
  importEntry lastOfObject env idx (Exporter.recordingJson r) =
  Some (mkImported (dateNow env idx, idx, randomSuffix env idx)
          (LabelGiven (JStr (Exporter.labelString (label r))))
          (JStr (createdAt r))
          (JNum (durationMs r))
          (nyquistHz r) (sampleRate r) (fftSize r) (inject_Z (bufferLength r))
          (map Exporter.frameJson (frames r))).
Proof.
  intros (Hny & Hsr & Hfft & Hbl & Hcreated & last & Hlast & Hdur).
  unfold importEntry, Exporter.recordingJson.
  cbn [prop assoc String.eqb Ascii.eqb Bool.eqb andb].
  cbn [truthy Exporter.labelString String.append String.eqb negb].
  assert (Ec : String.eqb (createdAt r) String.EmptyString = false)
    by (apply String.eqb_neq; exact Hcreated).
  rewrite Ec. cbn [negb].
  assert (Ed : (if Js.Qgt_bool (durationMs r) 0
                then JNum (durationMs r)
                else tOrZero
                       (lastOfFrames lastOfObject
                          (Some (JArr (map Exporter.frameJson (frames r))))))
               = JNum (durationMs r)).
  { destruct (Js.Qgt_bool (durationMs r) 0); [reflexivity|].
    unfold lastOfFrames. rewrite get_last_map.
    unfold ReplayEngine.lastFrame in Hlast. rewrite Hlast. simpl.
    now rewrite Hdur. }
  rewrite Ed.
  assert (Hpos : forall q d, 0 < q -> positiveOr (Some (JNum q)) d = q).
  { intros q d Hq. unfold positiveOr. apply Qgt_bool_true in Hq. now rewrite Hq. }
  rewrite !Hpos; trivial.
  change 0 with (inject_Z 0). rewrite <- Zlt_Qlt. exact Hbl.
Qed.

Lemma mapEntries_exported (env : Env) (recs : list Recording) (idx : nat) :
  Forall Exporter.captured recs ->
  exists imported,
    mapEntries lastOfObject env idx (map Exporter.recordingJson recs) = Some imported /\
    Forall2
      (fun r ir =>
         i_frames ir = map Exporter.frameJson (frames r) /\
         i_durationMs ir = JNum (durationMs r) /\
         i_nyquistHz ir = nyquistHz r /\
         i_sampleRate ir = sampleRate r /\
         i_fftSize ir = fftSize r /\
         i_bufferLength ir = inject_Z (bufferLength r) /\
         i_label ir = LabelGiven (JStr (Exporter.labelString (label r))) /\
         i_createdAt ir = JStr (createdAt r))
      recs imported.
Proof.
  intros Hall. revert idx. induction Hall as [|r rest Hr Hrest IH]; intros idx.
  - exists []. split; [reflexivity | constructor].
  - destruct (IH (S idx)) as (rs & Hrs & Hfs).
    eexists. simpl map. cbn [mapEntries].
    rewrite (importEntry_exported env idx r Hr), Hrs.
    split; [reflexivity|]. constructor; [|exact Hfs].
    simpl. repeat split.
Qed.

End ImportMore.

(** X7. An import is all or nothing.  A file that is not an array leaves
    the collection as it was; so does an array with a [null] entry anywhere,
    whatever the other entries are; any other array adds one recording per
    entry. *)
Theorem import_all_or_nothing
    (lastOfObject : list (String.string * json) -> option json)
    (env : Importer.Env) (parsed : json) (prev : list Stored) :
  ((forall entries, parsed <> JArr entries) ->
   Importer.handleImportFile lastOfObject env parsed prev = prev) /\
  (forall entries,
     parsed = JArr entries -> In JNull entries ->
     Importer.handleImportFile lastOfObject env parsed prev = prev) /\
  (forall entries,
     parsed = JArr entries -> ~ In JNull entries ->
     length (Importer.handleImportFile lastOfObject env parsed prev)
     = (length entries + length prev)%nat).
Proof.
  split; [|split].
  - intros Hna. destruct parsed; try reflexivity. now elim (Hna elements).
  - intros entries -> Hin. unfold Importer.handleImportFile.
    now rewrite (mapEntries_null lastOfObject env entries 0 Hin).
  - intros entries -> Hnn.
    assert (Hall : Forall (fun e => e <> JNull) entries).
    { apply Forall_forall. intros e He ->. contradiction. }
    destruct (mapEntries_total lastOfObject env entries 0 Hall) as (imported & Hm & Hf).
    unfold Importer.handleImportFile. rewrite Hm.
    rewrite length_app, length_map. f_equal.
    symmetry. eapply Forall2_length; eassumption.
Qed.

Lemma import_all_or_nothing_witness :
  Importer.handleImportFile (fun _ => None) Importer.liveEnv
    (JArr [Importer.wellFormedEntry; JNull]) [] = [].
Proof.
  apply (proj1 (proj2 (import_all_or_nothing (fun _ => None) Importer.liveEnv
                         (JArr [Importer.wellFormedEntry; JNull]) []))
           [Importer.wellFormedEntry; JNull]).
  - reflexivity.
  - right. now left.
Defined.

(** X8. Imported parameters are always usable.  When the live defaults are
    positive, every recording an import adds has a positive Nyquist
    frequency, sample rate, transform size and buffer length, whatever the
    file holds in those fields. *)
Theorem import_parameters_positive
    (lastOfObject : list (String.string * json) -> option json)
    (env : Importer.Env) (parsed : json) (prev : list Stored) :
  0 < Importer.nyquistRef env -> 0 < Importer.sampleRateRef env ->
  0 < Importer.fftSizeRef env -> 0 < Importer.bufferLengthRef env ->
  forall r,
    In (Imported r) (Importer.handleImportFile lastOfObject env parsed prev) ->
    In (Imported r) prev \/
    (0 < i_nyquistHz r /\ 0 < i_sampleRate r /\ 0 < i_fftSize r /\ 0 < i_bufferLength r).
Proof.
  intros H1 H2 H3 H4 r Hin.
  unfold Importer.handleImportFile in Hin.
  destruct parsed as [ | | | |entries| ]; auto.
  destruct (Importer.mapEntries lastOfObject env 0 entries) as [imported|] eqn:Hm; auto.
  apply in_app_or in Hin as [Hin | Hin]; [right | now left].
  apply in_map_iff in Hin as (r' & Hr' & Hin). injection Hr' as ->.
  pose proof (mapEntries_forall lastOfObject
                (fun r => 0 < i_nyquistHz r /\ 0 < i_sampleRate r /\
                          0 < i_fftSize r /\ 0 < i_bufferLength r) env) as Hfa.
  assert (Hall : Forall (fun r => 0 < i_nyquistHz r /\ 0 < i_sampleRate r /\
                                  0 < i_fftSize r /\ 0 < i_bufferLength r) imported).
  { eapply Hfa; [|exact Hm].
    intros idx rec r0 Hr0. eapply importEntry_positive; eassumption. }
  rewrite Forall_forall in Hall. now apply Hall.
Qed.

Lemma import_parameters_positive_witness :
  exists r,
    Importer.handleImportFile (fun _ => None) Importer.liveEnv
      (JArr [Importer.badParametersEntry]) [] = [Imported r] /\
    0 < i_sampleRate r /\ 0 < i_fftSize r.
Proof.
  eexists. split; [reflexivity|].
  destruct (import_parameters_positive (fun _ => None) Importer.liveEnv
              (JArr [Importer.badParametersEntry]) []
              eq_refl eq_refl eq_refl eq_refl _ (or_introl eq_refl))
    as [[] | (_ & Hsr & Hfft & _)].
  split; assumption.
Defined.

(** X9. A backup restores what was captured.  Exporting a non-empty
    collection of captured recordings and importing the file adds, in the
    same order, one recording per exported one with the same frames,
    duration, Nyquist frequency, sample rate, transform size, buffer length,
    label and creation time. *)
Theorem export_import_round_trip
    (lastOfObject : list (String.string * json) -> option json)
    (env : Importer.Env) (recs : list Recording) (prev : list Stored) :
  recs <> [] -> Forall Exporter.captured recs ->
  exists file imported,
    Exporter.handleExportRecordings (map Captured recs) = Some file /\
    Importer.handleImportFile lastOfObject env file prev
    = map Imported imported ++ prev /\
    Forall2
      (fun r ir =>
         i_frames ir = map Exporter.frameJson (frames r) /\
         i_durationMs ir = JNum (durationMs r) /\
         i_nyquistHz ir = nyquistHz r /\
         i_sampleRate ir = sampleRate r /\
         i_fftSize ir = fftSize r /\
         i_bufferLength ir = inject_Z (bufferLength r) /\
         i_label ir = LabelGiven (JStr (Exporter.labelString (label r))) /\
         i_createdAt ir = JStr (createdAt r))
      recs imported.
Proof.
  intros Hne Hall.
  destruct (mapEntries_exported lastOfObject env recs 0 Hall) as (imported & Hm & Hf).
  exists (JArr (map Exporter.recordingJson recs)), imported.
  split.
  - destruct recs as [|r rest]; [congruence|].
    unfold Exporter.handleExportRecordings. simpl map at 1.
    now rewrite map_map.
  - split; [|exact Hf].
    unfold Importer.handleImportFile. now rewrite Hm.
Qed.

Lemma export_import_round_trip_witness :
  exists file imported,
    Exporter.handleExportRecordings
      [Captured Exporter.sampleRecording]
    = Some file /\
    Importer.handleImportFile (fun _ => None) Importer.liveEnv file []
    = map Imported imported ++ [] /\
    length imported = 1%nat.
Proof.
  destruct (export_import_round_trip (fun _ => None) Importer.liveEnv
              [Exporter.sampleRecording] [])
    as (file & imported & He & Hi & Hf).
  - discriminate.
  - constructor; [|constructor].
    unfold Exporter.captured. simpl.
    repeat split; try reflexivity; try discriminate.
    eexists. split; reflexivity.
  - exists file, imported. repeat split; try assumption.
    apply Forall2_length in Hf. simpl in Hf. congruence.
Defined.

(** ** FrequencyMapper, further *)

Section MapperMore.

Import FrequencyMapper.

Local Open Scope R_scope.

Lemma freqAt_antitone (H : Z) (logarithmic : bool) (p q : R) :
  (2 <= H)%Z -> p <= q -> freqAt q H logarithmic <= freqAt p H logarithmic.
Proof.
  intros HH [Hlt | ->]; [left; now apply freqAt_decreasing | right; reflexivity].
Qed.

Lemma spec_frac_antitone (logarithmic : bool) (f g : R) :
  5 <= f -> f <= g -> spec_frac logarithmic g <= spec_frac logarithmic f.
Proof.
  intros Hf Hfg. unfold spec_frac. destruct logarithmic.
  - pose proof log_band_pos as Hband. unfold minFreq, maxFreq in Hband.
    assert (Hlog : log10 f <= log10 g) by (apply log10_le; Lra.lra).
    assert (Hk : 0 < / (log10 20000 - log10 5)) by (now apply Rinv_0_lt_compat).
    unfold Rdiv. Lra.nra.
  - Lra.lra.
Qed.

Lemma spec_frac_low (logarithmic : bool) : spec_frac logarithmic 5 = 1.
Proof.
  unfold spec_frac. destruct logarithmic.
  - pose proof log_band_pos as Hband. unfold minFreq, maxFreq in Hband.
    field. Lra.lra.
  - field.
Qed.

Lemma spec_frac_high (logarithmic : bool) : spec_frac logarithmic 20000 = 0.
Proof.
  unfold spec_frac. destruct logarithmic.
  - pose proof log_band_pos as Hband. unfold minFreq, maxFreq in Hband.
    field. Lra.lra.
  - field.
Qed.

Lemma binFreq_mono (i j : Z) (SR N : R) :
  0 < SR -> 0 < N -> (i <= j)%Z -> binFreq i SR N <= binFreq j SR N.
Proof.
  intros HSR HN Hij. unfold binFreq, Rdiv.
  assert (Hk : 0 < / N) by (now apply Rinv_0_lt_compat).
  assert (Hs : 0 < SR * / N) by (now apply Rmult_lt_0_compat).
  rewrite !Rmult_assoc.
  apply Rmult_le_compat_r; [Lra.lra | now apply IZR_le].
Qed.

(** The frequencies at the two ends of the canvas. *)
Lemma freqAt_top (H : Z) (logarithmic : bool) :
  (2 <= H)%Z -> freqAt 0 H logarithmic = 20000.
Proof.
  intros HH.
  assert (Hband : 5 <= 20000 <= 20000) by Lra.lra.
  pose proof (freqAt_position H logarithmic 20000 HH Hband) as E.
  rewrite spec_frac_high, Rmult_0_l in E. exact E.
Qed.

Lemma freqAt_bottom (H : Z) (logarithmic : bool) :
  (2 <= H)%Z -> freqAt (IZR H - 1) H logarithmic = 5.
Proof.
  intros HH.
  assert (Hband : 5 <= 5 <= 20000) by Lra.lra.
  pose proof (freqAt_position H logarithmic 5 HH Hband) as E.
  rewrite spec_frac_low, Rmult_1_l in E. exact E.
Qed.

End MapperMore.

(** X10. The ends of the band are drawn on the ends of the canvas: a bin of
    exactly 5 Hz is painted on the last row, [height - 1], and a bin of
    exactly 20000 Hz on row 0, on both scales. *)
Theorem band_ends_on_canvas_ends (i len H : Z) (logarithmic : bool) (SR N : R) :
  (((IZR i * SR) / N = 5)%R ->
   FrequencyMapper.binToY i len H logarithmic SR N = (H - 1)%Z) /\
  (((IZR i * SR) / N = 20000)%R ->
   FrequencyMapper.binToY i len H logarithmic SR N = 0%Z).
Proof.
  split; intros Hf.
  - assert (Hband : (5 <= FrequencyMapper.binFreq i SR N <= 20000)%R)
      by (unfold FrequencyMapper.binFreq; rewrite Hf; Lra.lra).
    rewrite (binToY_in_band i len H logarithmic SR N Hband).
    unfold FrequencyMapper.binFreq. rewrite Hf, spec_frac_low.
    rewrite Rmult_1_l, <- minus_IZR. unfold FrequencyMapper.floor. apply ZfloorZ.
  - assert (Hband : (5 <= FrequencyMapper.binFreq i SR N <= 20000)%R)
      by (unfold FrequencyMapper.binFreq; rewrite Hf; Lra.lra).
    rewrite (binToY_in_band i len H logarithmic SR N Hband).
    unfold FrequencyMapper.binFreq. rewrite Hf, spec_frac_high.
    rewrite Rmult_0_l. unfold FrequencyMapper.floor. apply (ZfloorZ 0).
Qed.

(** At 10240 Hz with a transform of 2048 samples the bins are 5 Hz apart:
    bin 1 is 5 Hz and bin 4000 is 20000 Hz. *)
Lemma band_ends_on_canvas_ends_witness :
  FrequencyMapper.binToY 1 1024 320 true 10240 2048 = 319%Z /\
  FrequencyMapper.binToY 4000 4096 320 false 10240 2048 = 0%Z.
Proof.
  split.
  - apply (band_ends_on_canvas_ends 1 1024 320 true 10240 2048). Lra.lra.
  - apply (band_ends_on_canvas_ends 4000 4096 320 false 10240 2048). Lra.lra.
Defined.

(** X11. Bins are painted from the bottom up.  With positive sample rate
    and transform size, on a canvas of positive height, the bins of the band
    form a contiguous range of indices, and a higher bin of the band is never
    painted below a lower one. *)
Theorem bins_painted_bottom_up (i j len H : Z) (logarithmic : bool) (SR N : R) :
  (0 < SR)%R -> (0 < N)%R -> (1 <= H)%Z -> (i <= j)%Z ->
  (5 <= FrequencyMapper.binFreq i SR N <= 20000)%R ->
  (5 <= FrequencyMapper.binFreq j SR N <= 20000)%R ->
  (FrequencyMapper.binToY j len H logarithmic SR N
   <= FrequencyMapper.binToY i len H logarithmic SR N)%Z /\
  (forall k, (i <= k <= j)%Z ->
     (5 <= FrequencyMapper.binFreq k SR N <= 20000)%R /\
     (0 <= FrequencyMapper.binToY k len H logarithmic SR N <= H - 1)%Z).
Proof.
  intros HSR HN HH Hij Hi Hj.
  assert (Hh : (0 <= IZR H - 1)%R).
  { assert (1 <= IZR H)%R by (apply IZR_le; exact HH). Lra.lra. }
  split.
  - rewrite (binToY_in_band i len H logarithmic SR N Hi).
    rewrite (binToY_in_band j len H logarithmic SR N Hj).
    unfold FrequencyMapper.floor. apply Zfloor_le.
    apply Rmult_le_compat_r; [exact Hh|].
    apply spec_frac_antitone; [Lra.lra|].
    now apply binFreq_mono.
  - intros k Hk.
    assert (Hband : (5 <= FrequencyMapper.binFreq k SR N <= 20000)%R).
    { pose proof (binFreq_mono i k SR N HSR HN (proj1 Hk)).
      pose proof (binFreq_mono k j SR N HSR HN (proj2 Hk)). Lra.lra. }
    split; [exact Hband|].
    rewrite (binToY_in_band k len H logarithmic SR N Hband).
    pose proof (spec_frac_range logarithmic _ Hband) as Hfrac.
    apply floor_range. rewrite minus_IZR. Lra.nra.
Qed.

Lemma bins_painted_bottom_up_witness :
  (FrequencyMapper.binToY 900 1024 320 true 44100 2048
   <= FrequencyMapper.binToY 100 1024 320 true 44100 2048)%Z.
Proof.
  apply (bins_painted_bottom_up 100 900 1024 320 true 44100 2048);
    try lia; try Lra.lra; unfold FrequencyMapper.binFreq; Lra.lra.
Defined.

(** ** Hover read-outs, further *)

Section HoverMore.

Import FrequencyMapper Hover.

Local Open Scope R_scope.

(** The value the spectrogram hover sets on a canvas at least two pixels
    high. *)
Lemma spectrogramHover_value (H : Z) (y : R) (useLogScale : bool) :
  (2 <= H)%Z ->
  handleSpectrogramHover (Some H) y useLogScale =
  SetHoverFreqHz
    (Some (Rmax 5 (Rmin 20000
             (yToFreq (Rmin (Rmax y 0) (IZR H - 1)) H useLogScale)))).
Proof.
  intros HH. unfold handleSpectrogramHover.
  rewrite orZ_nonzero by lia.
  assert (2 <= IZR H) by (apply IZR_le; exact HH).
  destruct (Rle_dec (IZR H - 1) 0) as [Hle|_]; [Lra.lra | reflexivity].
Qed.

Lemma yToFreq_antitone (H : Z) (logarithmic : bool) (p q : R) :
  (2 <= H)%Z -> p <= q -> yToFreq q H logarithmic <= yToFreq p H logarithmic.
Proof.
  intros HH Hpq.
  assert (E : forall u, yToFreq u H logarithmic = freqAt (u + /2) H logarithmic).
  { intros u. unfold freqAt. f_equal. Lra.lra. }
  rewrite !E. apply freqAt_antitone; [exact HH | Lra.lra].
Qed.

Lemma clamp_mono (lo hi x y : R) :
  x <= y -> Rmax lo (Rmin hi x) <= Rmax lo (Rmin hi y).
Proof.
  intros Hxy. apply Rle_max_compat_l. apply Rle_min_compat_l. exact Hxy.
Qed.

Lemma clampY_mono (hi x y : R) :
  x <= y -> Rmin (Rmax x 0) hi <= Rmin (Rmax y 0) hi.
Proof.
  intros Hxy. apply Rle_min_compat_r. apply Rle_max_compat_r. exact Hxy.
Qed.

End HoverMore.

(** X12. Spectrogram hover.  A canvas of height 0 or 1 gives no read-out
    (the value is reset).  On a higher canvas the read-out never rises when
    the pointer moves down, a pointer at or below the last row reads exactly
    5 Hz, and a pointer at or above the top edge reads the frequency of the
    centre of row 0, which is below 20000 Hz. *)
Theorem spectrogram_hover_readout (useLogScale : bool) :
  (forall y, Hover.handleSpectrogramHover (Some 0%Z) y useLogScale
             = Hover.SetHoverFreqHz None) /\
  (forall y, Hover.handleSpectrogramHover (Some 1%Z) y useLogScale
             = Hover.SetHoverFreqHz None) /\
  (forall (H : Z) (y1 y2 f1 f2 : R),
     (2 <= H)%Z -> (y1 <= y2)%R ->
     Hover.handleSpectrogramHover (Some H) y1 useLogScale
     = Hover.SetHoverFreqHz (Some f1) ->
     Hover.handleSpectrogramHover (Some H) y2 useLogScale
     = Hover.SetHoverFreqHz (Some f2) ->
     (f2 <= f1)%R) /\
  (forall (H : Z) (y : R),
     (2 <= H)%Z -> (IZR H - 1 <= y)%R ->
     Hover.handleSpectrogramHover (Some H) y useLogScale
     = Hover.SetHoverFreqHz (Some 5%R)) /\
  (forall (H : Z) (y : R),
     (2 <= H)%Z -> (y <= 0)%R ->
     Hover.handleSpectrogramHover (Some H) y useLogScale
     = Hover.SetHoverFreqHz (Some (FrequencyMapper.yToFreq 0 H useLogScale)) /\
     (5 < FrequencyMapper.yToFreq 0 H useLogScale < 20000)%R).
Proof.
  assert (Hnull : forall h y, (h = 0 \/ h = 1)%Z ->
            Hover.handleSpectrogramHover (Some h) y useLogScale
            = Hover.SetHoverFreqHz None).
  { intros h y Hh. unfold Hover.handleSpectrogramHover.
    assert (E : Hover.orZ h 1 = 1%Z) by (destruct Hh as [-> | ->]; reflexivity).
    rewrite E.
    destruct (Rle_dec (1 - 1) 0) as [_|Hn]; [reflexivity | exfalso; Lra.lra]. }
  split; [intros y; apply Hnull; now left|].
  split; [intros y; apply Hnull; now right|].
  split; [|split].
  - intros H y1 y2 f1 f2 HH Hy H1 H2.
    rewrite spectrogramHover_value in H1, H2 by exact HH.
    injection H1 as <-. injection H2 as <-.
    apply clamp_mono. apply yToFreq_antitone; [exact HH|]. now apply clampY_mono.
  - intros H y HH Hy.
    rewrite spectrogramHover_value by exact HH.
    assert (Hh : (2 <= IZR H)%R) by (apply IZR_le; exact HH).
    assert (Eclamp : Rmin (Rmax y 0) (IZR H - 1) = (IZR H - 1)%R).
    { apply Rmin_right. apply Rle_trans with y; [exact Hy | apply Rmax_l]. }
    rewrite Eclamp.
    pose proof (centre_in_its_row (H - 1) H useLogScale HH) as [_ Hc].
    unfold FrequencyMapper.rowTopFreq in Hc. rewrite minus_IZR in Hc.
    rewrite (freqAt_bottom H useLogScale HH) in Hc.
    assert (Emin : Rmin 20000 (FrequencyMapper.yToFreq (IZR H - 1) H useLogScale)
                   = FrequencyMapper.yToFreq (IZR H - 1) H useLogScale)
      by (apply Rmin_right; Lra.lra).
    rewrite Emin. do 2 f_equal. apply Rmax_left. Lra.lra.
  - intros H y HH Hy.
    assert (Hh : (2 <= IZR H)%R) by (apply IZR_le; exact HH).
    pose proof (centre_in_its_row 0 H useLogScale HH) as [Hlo Hhi].
    unfold FrequencyMapper.rowTopFreq, FrequencyMapper.rowBottomFreq in Hlo, Hhi.
    rewrite (freqAt_top H useLogScale HH) in Hhi.
    assert (Hge : (5 <= FrequencyMapper.freqAt (0 + 1) H useLogScale)%R).
    { rewrite <- (freqAt_bottom H useLogScale HH).
      apply freqAt_antitone; [exact HH | Lra.lra]. }
    split; [|Lra.lra].
    rewrite spectrogramHover_value by exact HH.
    assert (Eclamp : Rmin (Rmax y 0) (IZR H - 1) = 0%R).
    { rewrite Rmax_right by exact Hy. apply Rmin_left. Lra.lra. }
    rewrite Eclamp. do 2 f_equal.
    rewrite Rmin_right by Lra.lra. apply Rmax_right. Lra.lra.
Qed.

Lemma spectrogram_hover_readout_witness :
  Hover.handleSpectrogramHover (Some 320%Z) 400 true = Hover.SetHoverFreqHz (Some 5%R).
Proof.
  apply (proj1 (proj2 (proj2 (proj2 (spectrogram_hover_readout true)))) 320%Z 400%R).
  - lia.
  - Lra.lra.
Defined.

(** X13. The frequency scale.  Whatever the canvas and the scale mode, the
    scale has six labels and the first one, at position 1, is "5 Hz".  On a
    canvas at least two pixels high the frequency labelled at position [p]
    is the read-out of the spectrogram hover at the vertical offset
    [p * (height - 1)], and it does not rise with [p]. *)
Theorem frequency_scale_labels (useLogScale : bool) :
  (forall canvasHeight, exists rest,
     Legend.frequencyScale canvasHeight useLogScale = Legend.Hz 5 :: rest /\
     length rest = 5%nat) /\
  (forall (H : Z) (p : R),
     (2 <= H)%Z -> (0 <= p <= 1)%R ->
     Hover.handleSpectrogramHover (Some H) (p * (IZR H - 1))%R useLogScale
     = Hover.SetHoverFreqHz (Some (Legend.legendFreq H useLogScale p))) /\
  (forall (H : Z) (p q : R),
     (2 <= H)%Z -> (p <= q)%R ->
     (Legend.legendFreq H useLogScale q <= Legend.legendFreq H useLogScale p)%R).
Proof.
  assert (Hfive : Legend.labelOf 5 = Legend.Hz 5).
  { unfold Legend.labelOf.
    destruct (Rle_dec 1000 5) as [Hle|_]; [exfalso; Lra.lra|].
    f_equal. unfold Legend.round. apply Zfloor_eq. Lra.lra. }
  assert (Hbottom : forall H, (2 <= H)%Z -> Legend.legendFreq H useLogScale 1 = 5%R).
  { intros H HH. unfold Legend.legendFreq. rewrite Rmult_1_l.
    pose proof (centre_in_its_row (H - 1) H useLogScale HH) as [_ Hc].
    unfold FrequencyMapper.rowTopFreq in Hc. rewrite minus_IZR in Hc.
    rewrite (freqAt_bottom H useLogScale HH) in Hc.
    rewrite Rmin_right by Lra.lra. apply Rmax_left. Lra.lra. }
  split; [|split].
  - intros canvasHeight. unfold Legend.frequencyScale.
    set (height := Hover.orZ (match canvasHeight with Some h => h | None => 0%Z end) 320).
    destruct (Rle_dec (IZR height - 1) 0) as [Hle|Hgt].
    + assert (E : Legend.fallbackFreq 1 = 5%R)
        by (unfold Legend.fallbackFreq; Lra.lra).
      eexists. split.
      * unfold Legend.positions. simpl map. rewrite E, Hfive. reflexivity.
      * reflexivity.
    + assert (HH : (2 <= height)%Z).
      { assert (1 < IZR height)%R by Lra.lra.
        assert (1 < height)%Z by (now apply lt_IZR). lia. }
      eexists. split.
      * unfold Legend.positions. simpl map. rewrite (Hbottom height HH), Hfive.
        reflexivity.
      * reflexivity.
  - intros H p HH Hp.
    rewrite spectrogramHover_value by exact HH.
    assert (Hh : (2 <= IZR H)%R) by (apply IZR_le; exact HH).
    assert (Eclamp : Rmin (Rmax (p * (IZR H - 1)) 0) (IZR H - 1) = (p * (IZR H - 1))%R).
    { rewrite Rmax_left by Lra.nra. apply Rmin_left. Lra.nra. }
    rewrite Eclamp. reflexivity.
  - intros H p q HH Hpq. unfold Legend.legendFreq.
    assert (Hh : (2 <= IZR H)%R) by (apply IZR_le; exact HH).
    apply clamp_mono. apply yToFreq_antitone; [exact HH | Lra.nra].
Qed.

Lemma frequency_scale_labels_witness :
  Hover.handleSpectrogramHover (Some 320%Z) (/ 2 * (IZR 320 - 1))%R false
  = Hover.SetHoverFreqHz (Some (Legend.legendFreq 320 false (/ 2))).
Proof.
  apply (proj1 (proj2 (frequency_scale_labels false)) 320%Z (/ 2)%R).
  - lia.
  - Lra.lra.
Defined.

(** ** WaterfallRenderer *)

Section Colours.

Import Waterfall.

Local Open Scope R_scope.

Lemma Zfloor_quotient (a b : Z) :
  (0 < b)%Z -> Zfloor (IZR a / IZR b) = (a / b)%Z.
Proof.
  intros Hb.
  assert (Hbr : 0 < IZR b) by (now apply IZR_lt).
  pose proof (Z.div_mod a b ltac:(lia)) as Hdm.
  pose proof (Z.mod_pos_bound a b Hb) as [Hr0 Hrb].
  apply IZR_le in Hr0. apply IZR_lt in Hrb.
  apply (f_equal IZR) in Hdm. rewrite plus_IZR, mult_IZR in Hdm.
  assert (Hk : 0 < / IZR b) by (now apply Rinv_0_lt_compat).
  assert (E : IZR a / IZR b = IZR (a / b) + IZR (a mod b) * / IZR b).
  { rewrite Hdm. field. Lra.lra. }
  apply Zfloor_eq. rewrite E. split.
  - assert (0 <= IZR (a mod b) * / IZR b) by (apply Rmult_le_pos; Lra.lra).
    Lra.lra.
  - assert (IZR (a mod b) * / IZR b < 1).
    { apply (Rmult_lt_reg_r (IZR b)); [exact Hbr|].
      rewrite Rmult_assoc, Rinv_l by Lra.lra. Lra.lra. }
    Lra.lra.
Qed.

Lemma Zfloor_sqrt (n : Z) : (0 <= n)%Z -> Zfloor (sqrt (IZR n)) = Z.sqrt n.
Proof.
  intros Hn.
  pose proof (Z.sqrt_spec n Hn) as [Hlo Hhi].
  pose proof (Z.sqrt_nonneg n) as Hs.
  apply IZR_le in Hlo. apply IZR_lt in Hhi.
  rewrite mult_IZR in Hlo. unfold Z.succ in Hhi. rewrite mult_IZR, plus_IZR in Hhi.
  assert (Hsr : 0 <= IZR (Z.sqrt n)) by (now apply IZR_le).
  apply Zfloor_eq. split.
  - rewrite <- (sqrt_square (IZR (Z.sqrt n))) at 1 by exact Hsr.
    apply sqrt_le_1_alt. exact Hlo.
  - rewrite <- (sqrt_square (IZR (Z.sqrt n) + 1)) by Lra.lra.
    apply sqrt_lt_1_alt. split; [apply IZR_le; exact Hn | exact Hhi].
Qed.

End Colours.

(** X14. The colour of a magnitude.  For a byte magnitude [m] the three
    channels are, in integer arithmetic, [m^3 / 65025], [50 * m / 255] and
    the integer square root of [255 * m] (quotients rounded down).  So red
    and blue stay within 0..255 and green within 0..50, no channel decreases
    when the magnitude grows, magnitude 0 is black, and every other
    magnitude has a blue channel of at least 15. *)
Theorem intensity_color_integer (m : Z) :
  Js.uint8 m ->
  Waterfall.intensityColor m
  = Waterfall.mkColor (m ^ 3 / 65025) (50 * m / 255) (Z.sqrt (255 * m)) /\
  (0 <= Waterfall.red (Waterfall.intensityColor m) <= 255)%Z /\
  (0 <= Waterfall.green (Waterfall.intensityColor m) <= 50)%Z /\
  (0 <= Waterfall.blue (Waterfall.intensityColor m) <= 255)%Z /\
  (m = 0%Z -> Waterfall.intensityColor m = Waterfall.mkColor 0 0 0) /\
  ((1 <= m)%Z -> (15 <= Waterfall.blue (Waterfall.intensityColor m))%Z) /\
  (forall m', Js.uint8 m' -> (m <= m')%Z ->
     (Waterfall.red (Waterfall.intensityColor m)
      <= Waterfall.red (Waterfall.intensityColor m'))%Z /\
     (Waterfall.green (Waterfall.intensityColor m)
      <= Waterfall.green (Waterfall.intensityColor m'))%Z /\
     (Waterfall.blue (Waterfall.intensityColor m)
      <= Waterfall.blue (Waterfall.intensityColor m'))%Z).
Proof.
  assert (Hclosed : forall v, Js.uint8 v ->
            Waterfall.intensityColor v
            = Waterfall.mkColor (v ^ 3 / 65025) (50 * v / 255) (Z.sqrt (255 * v))).
  { intros v [Hlo Hhi]. unfold Waterfall.intensityColor, FrequencyMapper.floor.
    assert (Hv : (0 <= IZR v)%R) by (now apply IZR_le).
    f_equal.
    - rewrite <- Zfloor_quotient by lia. f_equal.
      change 3%Z with (Z.of_nat 3). rewrite <- pow_IZR. field.
    - rewrite <- Zfloor_quotient by lia. f_equal.
      rewrite mult_IZR. field.
    - rewrite <- Zfloor_sqrt by lia. f_equal.
      rewrite mult_IZR.
      rewrite <- (sqrt_square 255) at 1 by Lra.lra.
      rewrite <- sqrt_mult_alt by Lra.lra.
      f_equal. field. }
  assert (Hmono : forall u v, (0 <= u <= v)%Z ->
            (u ^ 3 / 65025 <= v ^ 3 / 65025)%Z /\
            (50 * u / 255 <= 50 * v / 255)%Z /\
            (Z.sqrt (255 * u) <= Z.sqrt (255 * v))%Z).
  { intros u v Huv. repeat split.
    - apply Z.div_le_mono; [lia|]. apply Z.pow_le_mono_l. lia.
    - apply Z.div_le_mono; lia.
    - apply Z.sqrt_le_mono. lia. }
  intros Hm. pose proof Hm as [Hlo Hhi].
  rewrite (Hclosed m Hm). cbn [Waterfall.red Waterfall.green Waterfall.blue].
  destruct (Hmono 0%Z m ltac:(lia)) as (Hr0 & Hg0 & Hb0).
  destruct (Hmono m 255%Z ltac:(lia)) as (Hr1 & Hg1 & Hb1).
  change (0 ^ 3 / 65025)%Z with 0%Z in Hr0. change (50 * 0 / 255)%Z with 0%Z in Hg0.
  change (Z.sqrt (255 * 0)) with 0%Z in Hb0.
  change (255 ^ 3 / 65025)%Z with 255%Z in Hr1.
  change (50 * 255 / 255)%Z with 50%Z in Hg1.
  change (Z.sqrt (255 * 255)) with 255%Z in Hb1.
  split; [reflexivity|].
  split; [lia|]. split; [lia|]. split; [lia|].
  split; [intros ->; reflexivity|].
  split.
  - intros H1.
    destruct (Hmono 1%Z m ltac:(lia)) as (_ & _ & Hb).
    change (Z.sqrt (255 * 1)) with 15%Z in Hb. exact Hb.
  - intros m' Hm' Hle. rewrite (Hclosed m' Hm').
    cbn [Waterfall.red Waterfall.green Waterfall.blue].
    apply Hmono. lia.
Qed.

Lemma intensity_color_integer_witness :
  Waterfall.intensityColor 128 = Waterfall.mkColor 32 25 180.
Proof.
  rewrite (proj1 (intensity_color_integer 128 ltac:(unfold Js.uint8; lia))).
  reflexivity.
Defined.

Section Column.

Import Waterfall.

Variables (a : list Z) (w h : Z) (useLogScale : bool) (SR N : R).

Hypothesis Hw : (1 <= w)%Z.
Hypothesis Hh : (1 <= h)%Z.

Let row (i : nat) : Z :=
  FrequencyMapper.binToY (Z.of_nat i) (Z.of_nat (length a)) h useLogScale SR N.

(** A row returned for a bin is a row of the canvas. *)
Lemma row_on_canvas (i : nat) : (0 <= row i)%Z -> (row i <= h - 1)%Z.
Proof.
  unfold row. intros Hpos.
  set (f := FrequencyMapper.binFreq (Z.of_nat i) SR N).
  destruct (Rlt_dec f 5) as [Hlo|Hlo].
  { rewrite binToY_out_of_band in Hpos by (left; exact Hlo).
    unfold FrequencyMapper.OUT_OF_BAND in Hpos. lia. }
  destruct (Rlt_dec 20000 f) as [Hhi|Hhi].
  { rewrite binToY_out_of_band in Hpos by (right; exact Hhi).
    unfold FrequencyMapper.OUT_OF_BAND in Hpos. lia. }
  assert (Hband : (5 <= f <= 20000)%R) by Lra.lra.
  rewrite (binToY_in_band _ _ h useLogScale SR N Hband).
  pose proof (spec_frac_range useLogScale _ Hband) as Hfrac.
  assert (Hr : (0 <= IZR h - 1)%R).
  { assert (1 <= IZR h)%R by (apply IZR_le; exact Hh). Lra.lra. }
  apply floor_range. rewrite minus_IZR. unfold f in *. Lra.nra.
Qed.

Let column_inv (c : Canvas) (k : nat) (ck : Canvas) : Prop :=
  columnInvariant a w h useLogScale SR N c k ck.

Lemma fillPixel_read (c : Canvas) (y : Z) (color : Color) (x' y' : Z) :
  (0 <= y <= h - 1)%Z ->
  fillPixel c w h (w - 1) y color x' y'
  = if ((x' =? w - 1) && (y' =? y))%Z then color else c x' y'.
Proof.
  intros Hy. unfold fillPixel.
  destruct (Z.leb_spec 0 (w - 1)); [|lia].
  destruct (Z.ltb_spec (w - 1) w); [|lia].
  destruct (Z.leb_spec 0 y); [|lia].
  destruct (Z.ltb_spec y h); [|lia].
  now rewrite !andb_true_r.
Qed.

Lemma paintStep_inv (c : Canvas) (k : nat) (ck : Canvas) :
  (k < length a)%nat -> column_inv c k ck ->
  column_inv c (S k) (paintStep a w h useLogScale SR N k ck).
Proof.
  intros Hk (Hother & Hfree & Hlast).
  unfold paintStep. rewrite get_of_nat.
  destruct (nth_error a k) as [vk|] eqn:Ek.
  2:{ apply nth_error_None in Ek. lia. }
  fold (row k).
  destruct (Z.ltb_spec (row k) 0) as [Hneg|Hpos].
  - split; [exact Hother|]. split.
    + intros y Hy. apply Hfree. intros i Hi. apply Hy. lia.
    + intros y i v (Hi & Hrow & Hafter) Hv Hy0.
      assert (i <> k) by (intros ->; fold (row k) in Hrow; lia).
      apply (Hlast y i v); trivial.
      split; [lia|]. split; [exact Hrow|]. intros j Hj. apply Hafter. lia.
  - pose proof (row_on_canvas k Hpos) as Htop.
    split; [|split].
    + intros x y Hx. rewrite fillPixel_read by lia.
      destruct (Z.eqb_spec x (w - 1)); [contradiction|]. simpl. now apply Hother.
    + intros y Hy. rewrite fillPixel_read by lia.
      rewrite Z.eqb_refl. simpl.
      destruct (Z.eqb_spec y (row k)) as [->|_].
      * exfalso. apply (Hy k); [lia | reflexivity].
      * apply Hfree. intros i Hi. apply Hy. lia.
    + intros y i v (Hi & Hrow & Hafter) Hv Hy0.
      rewrite fillPixel_read by lia. rewrite Z.eqb_refl. simpl.
      destruct (Nat.eq_dec i k) as [->|Hne].
      * fold (row k) in Hrow. rewrite Hrow, Z.eqb_refl.
        rewrite Ek in Hv. now injection Hv as <-.
      * assert (Hrk : row k <> y) by (apply Hafter; lia).
        destruct (Z.eqb_spec y (row k)) as [->|_]; [congruence|].
        apply (Hlast y i v); trivial.
        split; [lia|]. split; [exact Hrow|]. intros j Hj. apply Hafter. lia.
Qed.

Lemma paintColumn_inv (c : Canvas) :
  column_inv c (length a) (paintColumn c a w h useLogScale SR N).
Proof.
  unfold paintColumn.
  apply (for_range_invariant (column_inv c)); [lia | | ].
  - split; [reflexivity|]. split; [reflexivity|].
    intros y i v (Hi & _). lia.
  - intros i st Hi. apply paintStep_inv. lia.
Qed.

End Column.

(** X15. The new column.  On a canvas at least one pixel wide and high, the
    painting loop touches only the last column.  There, a row that no bin of
    the array is mapped to keeps the pixel it had, and a row that some bin
    is mapped to ends with the colour of the magnitude of the last such bin:
    the highest bin of a row wins. *)
Theorem column_last_write_wins (c : Waterfall.Canvas) (a : list Z) (w h : Z)
    (useLogScale : bool) (SR N : R) :
  (1 <= w)%Z -> (1 <= h)%Z ->
  (forall x y, x <> (w - 1)%Z ->
     Waterfall.paintColumn c a w h useLogScale SR N x y = c x y) /\
  (forall y,
     (forall i, (i < length a)%nat ->
        FrequencyMapper.binToY (Z.of_nat i) (Z.of_nat (length a)) h useLogScale SR N
        <> y) ->
     Waterfall.paintColumn c a w h useLogScale SR N (w - 1)%Z y = c (w - 1)%Z y) /\
  (forall y i v,
     Waterfall.lastBinOnRow a h useLogScale SR N (length a) y i ->
     nth_error a i = Some v -> (0 <= y)%Z ->
     Waterfall.paintColumn c a w h useLogScale SR N (w - 1)%Z y
     = Waterfall.intensityColor v).
Proof.
  intros Hw Hh. exact (paintColumn_inv a w h useLogScale SR N Hw Hh c).
Qed.

Lemma column_last_write_wins_witness :
  Waterfall.paintColumn Waterfall.cleared [10; 20]%Z 4 3 false 44100 2048 0%Z 0%Z
  = Waterfall.cleared 0%Z 0%Z.
Proof.
  apply (column_last_write_wins Waterfall.cleared [10; 20]%Z 4 3 false 44100 2048);
    lia.
Defined.

Section Scroll.

Import Waterfall.

Variables (w h : Z) (useLogScale : bool) (SR N : R).

Hypothesis Hw : (1 <= w)%Z.
Hypothesis Hh : (1 <= h)%Z.

(** One tick moves every pixel left of the last column one column left. *)
Lemma tick_shift (c : Canvas) (a : list Z) (x y : Z) :
  (0 <= x < w - 1)%Z -> (0 <= y < h)%Z ->
  tick w h useLogScale SR N c a x y = c (x + 1)%Z y.
Proof.
  intros Hx Hy. unfold tick.
  destruct (paintColumn_inv a w h useLogScale SR N Hw Hh (scroll c w h)) as (Hother & _).
  rewrite Hother by lia. unfold scroll.
  destruct (Z.leb_spec 0 x); [|lia].
  destruct (Z.ltb_spec x (w - 1)); [|lia].
  destruct (Z.leb_spec 0 y); [|lia].
  destruct (Z.ltb_spec y h); [|lia].
  reflexivity.
Qed.

Lemma ticks_shift (spectra : list (list Z)) (c : Canvas) (x y : Z) :
  (0 <= x)%Z -> (x + Z.of_nat (length spectra) <= w - 1)%Z -> (0 <= y < h)%Z ->
  ticks w h useLogScale SR N c spectra x y = c (x + Z.of_nat (length spectra))%Z y.
Proof.
  revert c. induction spectra as [|a rest IH]; intros c Hx Hn Hy.
  - simpl. now rewrite Z.add_0_r.
  - unfold ticks. simpl fold_left.
    fold (ticks w h useLogScale SR N (tick w h useLogScale SR N c a) rest).
    simpl length in Hn. rewrite IH by lia.
    rewrite tick_shift by lia. f_equal. simpl length. lia.
Qed.

End Scroll.

(** X16. The history scrolls.  On a canvas at least two pixels wide and one
    high, after [n] ticks a pixel that has not left the canvas sits [n] columns to
    the left of where it was, unchanged, whatever was painted in between: the
    column painted by a tick is seen [n] columns left of the last one after
    [n] more ticks. *)
Theorem history_scrolls (w h : Z) (useLogScale : bool) (SR N : R)
    (c : Waterfall.Canvas) (spectra : list (list Z)) (x y : Z) :
  (2 <= w)%Z -> (1 <= h)%Z ->
  (0 <= x)%Z -> (x + Z.of_nat (length spectra) <= w - 1)%Z -> (0 <= y < h)%Z ->
  Waterfall.ticks w h useLogScale SR N c spectra x y
  = c (x + Z.of_nat (length spectra))%Z y.
Proof.
  intros Hw Hh. apply ticks_shift; [lia | exact Hh].
Qed.

Lemma history_scrolls_witness :
  Waterfall.ticks 1024 320 true 44100 2048 Waterfall.cleared
    [[1; 2]; [3; 4]; [5; 6]]%Z 10%Z 7%Z
  = Waterfall.cleared 13%Z 7%Z.
Proof.
  apply (history_scrolls 1024 320 true 44100 2048 Waterfall.cleared
           [[1; 2]; [3; 4]; [5; 6]]%Z 10 7);
    simpl; lia.
Defined.

(** ** AuxiliaryPlotRenderer *)

Section Waveform.

Import Plots.

Variables (a : list Z) (h sw : Q).

Lemma waveformStep_inv (k : nat) (st : Q * list (Q * Q)) :
  (k < length a)%nat ->
  (fst st == inject_Z (Z.of_nat k) * sw /\ length (snd st) = k /\
   forall j x y, nth_error (snd st) j = Some (x, y) ->
     exists s, nth_error a j = Some s /\
               x == inject_Z (Z.of_nat j) * sw /\ y = (inject_Z s / 128 / 2) * h) ->
  (fst (waveformStep a h sw k st) == inject_Z (Z.of_nat (S k)) * sw /\
   length (snd (waveformStep a h sw k st)) = S k /\
   forall j x y, nth_error (snd (waveformStep a h sw k st)) j = Some (x, y) ->
     exists s, nth_error a j = Some s /\
               x == inject_Z (Z.of_nat j) * sw /\ y = (inject_Z s / 128 / 2) * h).
Proof.
  intros Hk (Hx & Hlen & Hpts). destruct st as [x0 path]. simpl in Hx, Hlen, Hpts.
  unfold waveformStep. rewrite get_of_nat.
  destruct (nth_error a k) as [s|] eqn:Es.
  2:{ apply nth_error_None in Es. lia. }
  cbn [fst snd]. split; [|split].
  - rewrite Hx, Nat2Z.inj_succ. unfold Z.succ. rewrite inject_Z_plus. ring.
  - rewrite length_app. simpl. lia.
  - intros j x y Hj.
    destruct (Nat.lt_ge_cases j (length path)) as [Hlt|Hge].
    + rewrite nth_error_app1 in Hj by exact Hlt. now apply Hpts.
    + rewrite nth_error_app2 in Hj by exact Hge.
      destruct (j - length path)%nat as [|m] eqn:Ej.
      * simpl in Hj. injection Hj as <- <-.
        assert (j = k) by lia. subst j. exists s. repeat split; trivial.
      * simpl in Hj. destruct m; discriminate.
Qed.

Lemma waveformLoop_inv :
  let st := Js.for_range 0 (length a) (waveformStep a h sw) (0, []) in
  length (snd st) = length a /\
  forall j x y, nth_error (snd st) j = Some (x, y) ->
    exists s, nth_error a j = Some s /\
              x == inject_Z (Z.of_nat j) * sw /\ y = (inject_Z s / 128 / 2) * h.
Proof.
  simpl.
  pose proof (for_range_invariant
    (fun k st =>
       fst st == inject_Z (Z.of_nat k) * sw /\ length (snd st) = k /\
       forall j x y, nth_error (snd st) j = Some (x, y) ->
         exists s, nth_error a j = Some s /\
                   x == inject_Z (Z.of_nat j) * sw /\ y = (inject_Z s / 128 / 2) * h)
    0 (length a) (waveformStep a h sw) (0, [])) as Hinv.
  destruct Hinv as (_ & Hlen & Hpts).
  - lia.
  - simpl. split; [ring|]. split; [reflexivity|].
    intros j x y Hj. destruct j; discriminate.
  - intros i st Hi. apply waveformStep_inv. lia.
  - split; assumption.
Qed.

End Waveform.

(** X17. The waveform polyline.  For a non-empty byte array on a canvas of
    positive size the polyline has one point per sample; point [k] is at
    [x = k * w / length] and [y = sample * h / 256], so it lies inside the
    canvas, and a sample of 128 (silence) is drawn at mid-height. *)
Theorem waveform_inside_canvas (w h : Z) (a : list Z) :
  a <> [] -> Forall Js.uint8 a -> (0 < w)%Z -> (0 < h)%Z ->
  length (Plots.waveformPath w h a) = length a /\
  forall k x y,
    nth_error (Plots.waveformPath w h a) k = Some (x, y) ->
    exists s,
      nth_error a k = Some s /\
      x == inject_Z (Z.of_nat k) * inject_Z w / inject_Z (Z.of_nat (length a)) /\
      y == inject_Z s * inject_Z h / 256 /\
      0 <= x < inject_Z w /\ 0 <= y < inject_Z h /\
      (s = 128%Z -> y == inject_Z h / 2).
Proof.
  intros Hne Hu8 Hw Hh.
  pose proof (waveformLoop_inv a (inject_Z h)
                (inject_Z w / inject_Z (Z.of_nat (length a)))) as (Hlen & Hpts).
  fold (Plots.waveformPath w h a) in Hlen, Hpts.
  split; [exact Hlen|].
  intros k x y Hk.
  destruct (Hpts k x y Hk) as (s & Hs & Hx & Hy).
  exists s. split; [exact Hs|].
  assert (HL : 0 < inject_Z (Z.of_nat (length a))).
  { change 0 with (inject_Z 0). rewrite <- Zlt_Qlt.
    destruct a; [congruence | simpl; lia]. }
  assert (HW : 0 < inject_Z w) by (change 0 with (inject_Z 0); now rewrite <- Zlt_Qlt).
  assert (HH : 0 < inject_Z h) by (change 0 with (inject_Z 0); now rewrite <- Zlt_Qlt).
  assert (Hkl : (k < length a)%nat) by (apply nth_error_Some; congruence).
  assert (Hk0 : 0 <= inject_Z (Z.of_nat k))
    by (change 0 with (inject_Z 0); rewrite <- Zle_Qle; lia).
  assert (Hk1 : inject_Z (Z.of_nat k) < inject_Z (Z.of_nat (length a)))
    by (rewrite <- Zlt_Qlt; lia).
  assert (Hsu : Js.uint8 s).
  { rewrite Forall_forall in Hu8. apply Hu8. eapply nth_error_In; eassumption. }
  destruct Hsu as [Hs0 Hs1].
  assert (Hs0q : 0 <= inject_Z s)
    by (change 0 with (inject_Z 0); now rewrite <- Zle_Qle).
  assert (Hs1q : inject_Z s <= 255)
    by (change 255 with (inject_Z 255); now rewrite <- Zle_Qle).
  assert (Ex : x == inject_Z (Z.of_nat k) * inject_Z w / inject_Z (Z.of_nat (length a))).
  { rewrite Hx. field. lra. }
  assert (Ey : y == inject_Z s * inject_Z h / 256) by (rewrite Hy; field).
  split; [exact Ex|]. split; [exact Ey|].
  split; [|split].
  - rewrite Ex. split.
    + apply Qle_shift_div_l; [exact HL|]. nra.
    + apply Qlt_shift_div_r; [exact HL|]. nra.
  - rewrite Ey. split.
    + apply Qle_shift_div_l; [reflexivity|]. nra.
    + apply Qlt_shift_div_r; [reflexivity|]. nra.
  - intros ->. rewrite Ey. field.
Qed.

Lemma waveform_inside_canvas_witness :
  length (Plots.waveformPath 512 160 [128; 0; 255]%Z) = 3%nat.
Proof.
  apply (waveform_inside_canvas 512 160 [128; 0; 255]%Z).
  - discriminate.
  - repeat constructor; unfold Js.uint8; lia.
  - lia.
  - lia.
Defined.

Section Spectrum.

Import Plots.

Variables (a : list Z) (h stride : Z).

Hypothesis Hstride : (1 <= stride)%Z.


End Spectrum.

Section SpectrumStep.

Import Plots.

Lemma step_covers (L w : Z) :
  (1 <= L)%Z -> (1 <= w)%Z -> (1 <= step L w)%Z /\ (L <= w * step L w)%Z.
Proof.
  intros HL Hw. unfold step.
  set (x := inject_Z L / inject_Z w).
  assert (HLq : 1 <= inject_Z L) by (change 1 with (inject_Z 1); now rewrite <- Zle_Qle).
  assert (Hwq : 1 <= inject_Z w) by (change 1 with (inject_Z 1); now rewrite <- Zle_Qle).
  assert (Hx : 0 < x) by (unfold x; apply Qlt_shift_div_l; lra).
  pose proof (Qle_ceiling x) as Hc.
  assert (Hpos : 0 < inject_Z (Qceiling x)) by lra.
  change 0 with (inject_Z 0) in Hpos. rewrite <- Zlt_Qlt in Hpos.
  split; [lia|].
  assert (Hm : inject_Z L <= inject_Z w * inject_Z (Qceiling x)).
  { assert (E : inject_Z L == inject_Z w * x) by (unfold x; field; lra).
    rewrite E at 1. apply Qmult_le_l; [lra | exact Hc]. }
  rewrite <- inject_Z_mult, <- Zle_Qle in Hm. exact Hm.
Qed.


End SpectrumStep.



Section SpectrumHover.

Import Hover.

Lemma set_some_eq {A : Type} (x y : A) :
  SetHoverFreqHz (Some x) = SetHoverFreqHz (Some y) -> x = y.
Proof. now intros [= ->]. Qed.

Lemma spectrumHover_value (x : Q) (W L : Z) (SR N : Q) :
  W <> 0%Z -> L <> 0%Z -> ~ SR == 0 -> ~ N == 0 ->
  handleSpectrumHover (Some W) x L SR N
  = SetHoverFreqHz (Some (spec_spectrumHover x W L SR N)).
Proof.
  intros HW HL HSR HN.
  unfold handleSpectrumHover, spec_spectrumHover, spec_bin, clampQ.
  now rewrite !orZ_nonzero, !orQ_nonzero by assumption.
Qed.

Lemma round_mono (x y : Q) : x <= y -> (Js.round x <= Js.round y)%Z.
Proof. intros Hxy. unfold Js.round. apply Qfloor_resp_le. lra. Qed.

Lemma round_nonneg (x : Q) : 0 <= x -> (0 <= Js.round x)%Z.
Proof.
  intros Hx. change 0%Z with (Js.round 0). now apply round_mono.
Qed.

Lemma clampX_mono (hi x y : Q) : x <= y -> Qmin (Qmax x 0) hi <= Qmin (Qmax y 0) hi.
Proof.
  intros Hxy. apply Q.min_le_compat_r. apply Q.max_le_compat_r. exact Hxy.
Qed.

Lemma clampQ_mono (lo hi x y : Q) : x <= y -> clampQ lo hi x <= clampQ lo hi y.
Proof.
  intros Hxy. unfold clampQ. apply Q.max_le_compat_l. apply Q.min_le_compat_l. exact Hxy.
Qed.

Lemma centre_mono (b c : Z) (SR N : Q) :
  0 < SR -> 0 < N -> (b <= c)%Z ->
  ((inject_Z b + (1 # 2)) * SR) / N <= ((inject_Z c + (1 # 2)) * SR) / N.
Proof.
  intros HSR HN Hbc. rewrite Zle_Qle in Hbc.
  unfold Qdiv. apply Qmult_le_compat_r; [nra|].
  apply Qinv_le_0_compat. lra.
Qed.

End SpectrumHover.

(** X19. Range of the spectrum hover.  With a canvas at least one pixel
    wide, at least one bin and positive sample rate and transform size, the
    read-out is the clamped centre frequency of a bin between 0 and the last
    one: it is at least half a bin spacing (so the lower clamp at 0 never
    acts), at most the centre of the last bin, and it never decreases when
    the pointer moves right. *)
Theorem spectrum_hover_range (W L : Z) (SR N : Q) :
  (1 <= W)%Z -> (1 <= L)%Z -> 0 < SR -> 0 < N ->
  (forall x, exists f,
     Hover.handleSpectrumHover (Some W) x L SR N = Hover.SetHoverFreqHz (Some f) /\
     Qmin 20000 (SR / (2 * N)) <= f /\
     f <= Qmin 20000 (((inject_Z L - (1 # 2)) * SR) / N)) /\
  (forall x1 x2 f1 f2,
     x1 <= x2 ->
     Hover.handleSpectrumHover (Some W) x1 L SR N = Hover.SetHoverFreqHz (Some f1) ->
     Hover.handleSpectrumHover (Some W) x2 L SR N = Hover.SetHoverFreqHz (Some f2) ->
     f1 <= f2).
Proof.
  intros HW HL HSR HN.
  assert (Hval : forall x,
            Hover.handleSpectrumHover (Some W) x L SR N
            = Hover.SetHoverFreqHz (Some (Hover.spec_spectrumHover x W L SR N))).
  { intros x. apply spectrumHover_value; try lia; lra. }
  destruct (step_covers L W HL HW) as [Hstep _]. unfold Plots.step in Hstep.
  assert (Hclamp0 : forall x, 0 <= Qmin (Qmax x 0) (inject_Z W - 1)).
  { intros x. apply Q.min_glb; [apply Q.le_max_r|].
    assert (Hz : (1 <= W)%Z) by exact HW. rewrite Zle_Qle in Hz.
    change (inject_Z 1) with 1 in Hz. lra. }
  assert (Hbin : forall x, (0 <= Hover.spec_bin x W L <= L - 1)%Z).
  { intros x. unfold Hover.spec_bin.
    pose proof (round_nonneg _ (Hclamp0 x)) as Hr.
    split; [apply Z.min_glb; nia | apply Z.le_min_l]. }
  split.
  - intros x. eexists. split; [apply Hval|].
    unfold Hover.spec_spectrumHover, Hover.clampQ.
    destruct (Hbin x) as [Hb0 Hb1].
    pose proof (centre_mono 0 (Hover.spec_bin x W L) SR N HSR HN Hb0) as Hlo.
    pose proof (centre_mono (Hover.spec_bin x W L) (L - 1) SR N HSR HN Hb1) as Hhi.
    change (inject_Z 0) with (0 # 1) in Hlo.
    assert (Elo : (((0 # 1) + (1 # 2)) * SR) / N == SR / (2 * N)) by (field; lra).
    assert (Ehi : ((inject_Z (L - 1) + (1 # 2)) * SR) / N
                  == ((inject_Z L - (1 # 2)) * SR) / N).
    { unfold Zminus. rewrite inject_Z_plus.
      change (inject_Z (- (1))) with (- (1)). field. lra. }
    rewrite Elo in Hlo. rewrite Ehi in Hhi.
    split.
    + apply Qle_trans with
        (Qmin 20000 (((inject_Z (Hover.spec_bin x W L) + (1 # 2)) * SR) / N));
        [|apply Q.le_max_r].
      apply Q.min_le_compat_l. exact Hlo.
    + apply Q.max_lub.
      * apply Q.min_glb; [discriminate|].
        apply Qle_shift_div_l; [exact HN|].
        assert (Hz : (1 <= L)%Z) by lia. rewrite Zle_Qle in Hz.
        change (inject_Z 1) with 1 in Hz. nra.
      * apply Q.min_le_compat_l. exact Hhi.
  - intros x1 x2 f1 f2 Hx H1 H2.
    rewrite Hval in H1, H2. apply set_some_eq in H1. apply set_some_eq in H2.
    subst f1 f2. unfold Hover.spec_spectrumHover.
    apply clampQ_mono. apply centre_mono; trivial.
    unfold Hover.spec_bin. apply Z.min_le_compat_l.
    apply Z.mul_le_mono_nonneg_r; [lia|].
    apply round_mono. now apply clampX_mono.
Qed.

Lemma spectrum_hover_range_witness :
  exists f,
    Hover.handleSpectrumHover (Some 512%Z) 100 1024 44100 2048
    = Hover.SetHoverFreqHz (Some f) /\
    Qmin 20000 (44100 / (2 * 2048)) <= f.
Proof.
  destruct (proj1 (spectrum_hover_range 512 1024 44100 2048
                     ltac:(lia) ltac:(lia) eq_refl eq_refl) 100)
    as (f & Hf & Hlo & _).
  exists f. split; assumption.
Defined.

(** ** Capture and replay agree *)

Lemma Uint8Array_from_bytes (a : list Z) :
  Forall Js.uint8 a -> Js.Uint8Array_from a = a.
Proof.
  unfold Js.Uint8Array_from. induction 1 as [|v rest Hv _ IH]; [reflexivity|].
  simpl. rewrite IH. f_equal. unfold Js.uint8 in Hv. apply Z.mod_small. lia.
Qed.

(** X20. A replayed frame is analysed as it was when captured.  The frame
    saved for a tick holds the byte magnitudes of that tick, and on replay
    the conversion back to a byte array changes nothing, so the analyser
    returns for the stored frame the summary it returned live, for the same
    sample rate and transform size. *)
Theorem replay_analysis_matches (s : RecordingBuffer.State)
    (now : Q) (freqDataArray timeDomainArray : list Z) (SR N : Q) :
  RecordingBuffer.isRecordingRef s = true ->
  Forall Js.uint8 freqDataArray ->
  exists pre f,
    RecordingBuffer.recordedFramesRef
      (RecordingBuffer.saveFrame now freqDataArray timeDomainArray s)
    = pre ++ [f] /\
    freq f = freqDataArray /\ timeDomain f = timeDomainArray /\
    ReplayEngine.analyse f SR N
    = SpectralAnalyzer.calculateFrequencyAnalysis freqDataArray SR N.
Proof.
  intros Hrec Hu8. unfold RecordingBuffer.saveFrame. rewrite Hrec.
  eexists. eexists. split; [reflexivity|]. simpl.
  split; [reflexivity|]. split; [reflexivity|].
  unfold ReplayEngine.analyse. simpl. now rewrite Uint8Array_from_bytes.
Qed.

Lemma replay_analysis_matches_witness :
  exists pre f,
    RecordingBuffer.recordedFramesRef
      (RecordingBuffer.saveFrame 5 [0; 60; 0]%Z [128; 128]%Z
         (RecordingBuffer.mkState true true false [] [] None 20000 44100 2048 1024))
    = pre ++ [f] /\
    ReplayEngine.analyse f 44100 2048
    = SpectralAnalyzer.calculateFrequencyAnalysis [0; 60; 0]%Z 44100 2048.
Proof.
  destruct (replay_analysis_matches
              (RecordingBuffer.mkState true true false [] [] None 20000 44100 2048 1024)
              5 [0; 60; 0]%Z [128; 128]%Z 44100 2048)
    as (pre & f & Hf & _ & _ & Ha).
  - reflexivity.
  - repeat constructor; unfold Js.uint8; lia.
  - exists pre, f. split; assumption.
Defined.
